(** * GCS prerequisite editor and hit-location reordering

    A shallow embedding of the tree-editing callbacks of
    [ux/prereq_panel.go] and of the drag-and-drop handlers of the body
    settings dockable, with the properties the specification states
    about them; further on, the info pop helpers and the column and
    header lists of two table providers.

    Go pointers are modelled as addresses into a heap that only grows:
    an object removed from a slice stays allocated (the label side table
    may still hold it as a key), so a fresh allocation never collides
    with an address the program has seen.  Widget layout (columns, the
    slot a label occupies in its row, redraw requests) is presentation
    and is left out; the label texts, the side table, the tree, the
    last-used type, the modified notifications and the warning log are
    modelled. *)

From stdpp Require Import gmap strings list fin_maps.
From Stdlib Require Import ZArith Lia.

Open Scope Z_scope.

(** ** golang.org/x/exp/slices

    The slice helpers the callbacks use.  Indices are Go [int]s, so they
    are [Z] here and [-1] is the "not found" result.  An out-of-range
    index makes the Go function panic: the result is [None]. *)
Module slices.
Section Slices.
Context {E : Type}.

Fixpoint IndexFuncFrom (i : Z) (s : list E) (f : E → bool) : Z :=
  match s with
  | [] => -1
  | x :: s' => if f x then i else IndexFuncFrom (i + 1) s' f
  end.

(** [for i := range s { if f(s[i]) { return i } }; return -1] *)
Definition IndexFunc (s : list E) (f : E → bool) : Z := IndexFuncFrom 0 s f.

(** [Insert(s, i, v)]: panics unless [0 <= i <= len(s)]. *)
Definition Insert (s : list E) (i : Z) (v : E) : option (list E) :=
  if bool_decide (0 ≤ i ≤ Z.of_nat (length s))
  then Some (take (Z.to_nat i) s ++ v :: drop (Z.to_nat i) s)
  else None.

(** [Delete(s, i, j)]: [_ = s[i:j]] is the bounds check, then
    [append(s[:i], s[j:]...)]. *)
Definition Delete (s : list E) (i j : Z) : option (list E) :=
  if bool_decide (0 ≤ i ∧ i ≤ j ∧ j ≤ Z.of_nat (length s))
  then Some (take (Z.to_nat i) s ++ drop (Z.to_nat j) s)
  else None.

Context `{EqDecision E}.

(** [Index(s, v)]: the first [i] with [v == s[i]], or [-1]. *)
Definition Index (s : list E) (v : E) : Z :=
  IndexFunc s (λ x, bool_decide (v = x)).
End Slices.
End slices.

(** ** The prerequisite model *)

(** Modelled from the spec: [model.PrereqType] is declared in the model
    package, not in the editor.  It is an integer enumeration with the eight
    variants the type switch of [createPrereqForType] names; any other
    value of the underlying integer type is [OtherPrereqType]. *)
Inductive PrereqType :=
  | ListPrereqType
  | TraitPrereqType
  | AttributePrereqType
  | ContainedQuantityPrereqType
  | ContainedWeightPrereqType
  | EquippedEquipmentPrereqType
  | SkillPrereqType
  | SpellPrereqType
  | OtherPrereqType (code : nat).

#[global] Instance PrereqType_eq_dec : EqDecision PrereqType.
Proof. solve_decision. Defined.

(** The eight variants [createPrereqForType] knows. *)
Definition knownPrereqType (t : PrereqType) : bool :=
  match t with
  | OtherPrereqType _ => false
  | _ => true
  end.

(** A [model.Prereq] interface value is a pointer; [nil] is [None] where
    a pointer may be nil. *)
Abbreviation Prereq := nat (only parsing).

(** One allocated prerequisite.  A [*model.PrereqList] uses every field;
    the leaves have [Parent] only ([All] and [Prereqs] keep their zero
    values, which no code reads).  The rule criteria of the leaves and
    [WhenTL] play no part in the editing operations. *)
Record PrereqObj := mkPrereq {
  prereqType : PrereqType;
  Parent : option Prereq;
  All : bool;
  Prereqs : list Prereq
}.

(** [unison.Label], reduced to its text. *)
Record Label := mkLabel { Text : string }.

Inductive Warning :=
  | UnknownPrereqTypeWarning (t : PrereqType).

(** [prereqPanel], together with the package variable
    [lastPrereqTypeUsed], the heap its pointers live in, the number of
    [MarkModified] calls and the [jot.Warn] log. *)
Record prereqPanel := mkPanel {
  heap : gmap nat PrereqObj;
  root : Prereq;
  andOrMap : gmap nat Label;
  lastPrereqTypeUsed : PrereqType;
  modified : nat;
  warnings : list Warning
}.

Definition noAndOr : string := "".

(** [var lastPrereqTypeUsed = model.TraitPrereqType] *)
Definition initialLastPrereqTypeUsed : PrereqType := TraitPrereqType.

(** Field reads through a pointer.  Every pointer the program holds is
    allocated; at an address that is not, the reads give zero values. *)
Definition ParentList (h : gmap nat PrereqObj) (pr : Prereq) : option Prereq :=
  h !! pr ≫= Parent.

Definition PrereqsOf (h : gmap nat PrereqObj) (lst : Prereq) : list Prereq :=
  from_option Prereqs [] (h !! lst).

Definition AllOf (h : gmap nat PrereqObj) (lst : Prereq) : bool :=
  from_option All false (h !! lst).

(** [list.Prereqs = ps] *)
Definition setPrereqs (h : gmap nat PrereqObj) (lst : Prereq) (ps : list Prereq)
    : gmap nat PrereqObj :=
  alter (λ o, mkPrereq (prereqType o) (Parent o) (All o) ps) lst h.

(** [list.All = b], what the popup of a list panel does before it calls
    [adjustAndOrForList]. *)
Definition setAll (h : gmap nat PrereqObj) (lst : Prereq) (b : bool)
    : gmap nat PrereqObj :=
  alter (λ o, mkPrereq (prereqType o) (Parent o) b (Prereqs o)) lst h.

(** ** The connective text *)

(** [andOrText]:
    [list == nil || len(list.Prereqs) < 2 || list.Prereqs[0] == pr]
    gives [noAndOr]; otherwise "and" or "or" by [list.All]. *)
Definition andOrText (h : gmap nat PrereqObj) (pr : Prereq) : string :=
  match ParentList h pr with
  | None => noAndOr
  | Some lst =>
      if bool_decide (length (PrereqsOf h lst) < 2)%nat
         || bool_decide (head (PrereqsOf h lst) = Some pr)
      then noAndOr
      else if AllOf h lst then "and" else "or"
  end.

(** ** Building blocks of the callbacks *)

Definition withHeap (p : prereqPanel) (h : gmap nat PrereqObj) : prereqPanel :=
  mkPanel h (root p) (andOrMap p) (lastPrereqTypeUsed p) (modified p) (warnings p).

Definition withAndOrMap (p : prereqPanel) (m : gmap nat Label) : prereqPanel :=
  mkPanel (heap p) (root p) m (lastPrereqTypeUsed p) (modified p) (warnings p).

Definition withLastPrereqTypeUsed (p : prereqPanel) (t : PrereqType) : prereqPanel :=
  mkPanel (heap p) (root p) (andOrMap p) t (modified p) (warnings p).

(** [jot.Warn(errs.Newf("unknown prerequisite type: %s", ...))] *)
Definition Warn (p : prereqPanel) (w : Warning) : prereqPanel :=
  mkPanel (heap p) (root p) (andOrMap p) (lastPrereqTypeUsed p) (modified p)
          (warnings p ++ [w]).

(** [MarkModified(p)] *)
Definition MarkModified (p : prereqPanel) : prereqPanel :=
  mkPanel (heap p) (root p) (andOrMap p) (lastPrereqTypeUsed p) (S (modified p))
          (warnings p).

(** Modelled from the spec: the constructors [model.NewPrereqList],
    [model.NewTraitPrereq], ... live in the model package.  A fresh list
    defaults to conjunction with no children; a fresh leaf carries the
    defaults of its rule, none of which the editor's tree operations
    read.  Neither has a parent until the caller sets one. *)
Definition NewPrereqList : PrereqObj := mkPrereq ListPrereqType None true [].

Definition NewLeafPrereq (t : PrereqType) : PrereqObj := mkPrereq t None false [].

(** [one := model.NewXPrereq(); one.Parent = parentList; return one]:
    the object is allocated at an address the heap does not hold. *)
Definition allocWithParent (o : PrereqObj) (parentList : option Prereq)
    (p : prereqPanel) : option Prereq * prereqPanel :=
  let one := fresh (dom (heap p)) in
  (Some one,
   withHeap p (<[one := mkPrereq (prereqType o) parentList (All o) (Prereqs o)]> (heap p))).

(** [createPrereqForType]: a nil result is [None]. *)
Definition createPrereqForType (t : PrereqType) (parentList : option Prereq)
    (p : prereqPanel) : option Prereq * prereqPanel :=
  match t with
  | ListPrereqType => allocWithParent NewPrereqList parentList p
  | TraitPrereqType => allocWithParent (NewLeafPrereq TraitPrereqType) parentList p
  | AttributePrereqType => allocWithParent (NewLeafPrereq AttributePrereqType) parentList p
  | ContainedQuantityPrereqType =>
      allocWithParent (NewLeafPrereq ContainedQuantityPrereqType) parentList p
  | ContainedWeightPrereqType =>
      allocWithParent (NewLeafPrereq ContainedWeightPrereqType) parentList p
  | EquippedEquipmentPrereqType =>
      allocWithParent (NewLeafPrereq EquippedEquipmentPrereqType) parentList p
  | SkillPrereqType => allocWithParent (NewLeafPrereq SkillPrereqType) parentList p
  | SpellPrereqType => allocWithParent (NewLeafPrereq SpellPrereqType) parentList p
  | OtherPrereqType _ => (None, Warn p (UnknownPrereqTypeWarning t))
  end.

(** [addAndOr]: [p.andOrMap[data] = NewFieldLeadingLabel(andOrText(data))] *)
Definition addAndOr (data : Prereq) (p : prereqPanel) : prereqPanel :=
  withAndOrMap p (<[data := mkLabel (andOrText (heap p) data)]> (andOrMap p)).

(** [addToList] with the panel constructors it dispatches to.  Every
    constructor registers one label for its node, in front of or behind
    the other widgets; [createPrereqListPanel] then adds its children's
    panels.  The recursion follows the tree, so it is bounded by [fuel];
    the callbacks pass the number of allocated objects. *)
Fixpoint addToList (fuel : nat) (child : Prereq) (p : prereqPanel) : prereqPanel :=
  match prereqType <$> heap p !! child with
  | Some ListPrereqType =>
      let p1 := addAndOr child p in
      match fuel with
      | O => p1
      | S fuel' =>
          foldl (λ q c, addToList fuel' c q) p1 (PrereqsOf (heap p) child)
      end
  | Some (OtherPrereqType c) => Warn p (UnknownPrereqTypeWarning (OtherPrereqType c))
  | Some _ => addAndOr child p
  | None => p
  end.

(** [adjustAndOr]: the label is rewritten only when the text differs. *)
Definition adjustAndOr (data : Prereq) (p : prereqPanel) : prereqPanel :=
  match andOrMap p !! data with
  | Some label =>
      let text := andOrText (heap p) data in
      if bool_decide (text ≠ Text label)
      then withAndOrMap p (<[data := mkLabel text]> (andOrMap p))
      else p
  | None => p
  end.

(** What [adjustAndOr] makes of the side-table entry of [k]: an existing
    label ends up with the computed text, a missing one stays missing. *)
Definition relabel (h : gmap nat PrereqObj) (k : Prereq) (o : option Label)
    : option Label :=
  (λ _, mkLabel (andOrText h k)) <$> o.

(** [adjustAndOrForList]: [for _, one := range list.Prereqs] *)
Definition adjustAndOrForList (lst : Prereq) (p : prereqPanel) : prereqPanel :=
  foldl (λ q one, adjustAndOr one q) p (PrereqsOf (heap p) lst).

(** ** The callbacks

    A callback maps the state before the event to the state after it;
    [None] is a run-time panic (nil dereference, index out of range). *)
Definition ClickCallback : Type := prereqPanel → option prereqPanel.

(** The click callback of [addPrereqButton]. *)
Definition addPrereqButtonClick (prereqList : Prereq) : ClickCallback := λ p,
  match createPrereqForType (lastPrereqTypeUsed p) (Some prereqList) p with
  | (Some created, p1) =>
      ps ← slices.Insert (PrereqsOf (heap p1) prereqList) 0 created;
      let p2 := withHeap p1 (setPrereqs (heap p1) prereqList ps) in
      let p3 := addToList (size (heap p2)) created p2 in
      let p4 := adjustAndOrForList prereqList p3 in
      Some (MarkModified p4)
  | (None, p1) => Some p1
  end.

(** The click callback of [addPrereqListButton]. *)
Definition addPrereqListButtonClick (prereqList : Prereq) : ClickCallback := λ p,
  let (newList, p1) := allocWithParent NewPrereqList (Some prereqList) p in
  newList ← newList;
  ps ← slices.Insert (PrereqsOf (heap p1) prereqList) 0 newList;
  let p2 := withHeap p1 (setPrereqs (heap p1) prereqList ps) in
  let p3 := addToList (size (heap p2)) newList p2 in
  let p4 := adjustAndOrForList prereqList p3 in
  Some (MarkModified p4).

(** The click callback of [deleteButton]: the side-table entry goes
    first, the slice is touched only when the node is found. *)
Definition deleteButtonClick (data parentList : Prereq) : ClickCallback := λ p,
  let p1 := withAndOrMap p (delete data (andOrMap p)) in
  let i := slices.IndexFunc (PrereqsOf (heap p1) parentList)
                            (λ elem, bool_decide (elem = data)) in
  p2 ← (if bool_decide (i ≠ -1)
        then ps ← slices.Delete (PrereqsOf (heap p1) parentList) i (i + 1);
             Some (withHeap p1 (setPrereqs (heap p1) parentList ps))
        else Some p1);
  Some (MarkModified (adjustAndOrForList parentList p2)).

(** What [createButtonsPanel] puts into the button row of [data]'s
    panel: the two add buttons when [data] is a list, the delete button
    when [data] has a parent list. *)
Record Buttons := mkButtons {
  addPrereqButton : option ClickCallback;
  addPrereqListButton : option ClickCallback;
  deleteButton : option ClickCallback
}.

Definition createButtonsPanel (h : gmap nat PrereqObj) (data : Prereq) : Buttons :=
  let isList := bool_decide (prereqType <$> h !! data = Some ListPrereqType) in
  mkButtons
    (if isList then Some (addPrereqButtonClick data) else None)
    (if isList then Some (addPrereqListButtonClick data) else None)
    (match ParentList h data with
     | Some parentList => Some (deleteButtonClick data parentList)
     | None => None
     end).

(** The selection callback [addPrereqTypeSwitcher] installs for [pr];
    [selected] is the result of [pop.Selected()]. *)
Definition typeSwitcherSelectionChanged (pr : Prereq) (selected : option PrereqType)
    : ClickCallback := λ p,
  match selected with
  | Some item =>
      let parentList := ParentList (heap p) pr in
      match createPrereqForType item parentList p with
      | (Some newPrereq, p1) =>
          let p2 := withLastPrereqTypeUsed p1 item in
          parentList ← parentList;
          let lst := PrereqsOf (heap p2) parentList in
          let i := slices.IndexFunc lst (λ one, bool_decide (one = pr)) in
          if bool_decide (0 ≤ i < Z.of_nat (length lst))
          then
            let p3 := withHeap p2 (setPrereqs (heap p2) parentList
                                     (<[Z.to_nat i := newPrereq]> lst)) in
            let p4 := addToList (size (heap p3)) newPrereq p3 in
            Some (MarkModified p4)
          else None
      | (None, p1) => Some p1
      end
  | None => Some p
  end.

(** ** Hit-location drag and drop (body settings dockable) *)

(** The dragged [*hitLocationSettingsPanel]: the dockable it belongs to
    and the hit location it edits. *)
Record hitLocationSettingsPanel := mkHitLocationPanel {
  dockable : nat;
  loc : nat
}.

(** The value stored in the drag data under [hitLocationDragDataKey];
    anything that is not a [*hitLocationSettingsPanel] fails the type
    assertion. *)
Inductive DragValue :=
  | HitLocationPanelValue (dd : hitLocationSettingsPanel)
  | ForeignValue.

(** What the loop of [dataDragOver] learns about one child of the
    dragged panel's parent: whether its frame contains the pointer and
    whether the frame's vertical centre is at or above it. *)
Record ChildFrame := mkChildFrame {
  ContainsPoint : bool;
  CenterYAtOrAbove : bool
}.

(** [bodySettingsDockable]: its identity, the drag state, and the part
    of the body the drop handler works on: the [Locations] slice of each
    hit-location table and each location's owning table.  [undoEdits]
    counts the edits posted to the undo manager. *)
Record bodySettingsDockable := mkDockable {
  self : nat;
  Locations : gmap nat (list nat);
  OwningTable : gmap nat nat;
  dragTarget : option nat;
  dragInsert : Z;
  inDragOver : bool;
  undoEdits : nat
}.

Definition withDrag (d : bodySettingsDockable) (target : option nat) (insert : Z)
    (over : bool) : bodySettingsDockable :=
  mkDockable (self d) (Locations d) (OwningTable d) target insert over (undoEdits d).

Definition withLocations (d : bodySettingsDockable) (table : nat) (ls : list nat)
    : bodySettingsDockable :=
  mkDockable (self d) (<[table := ls]> (Locations d)) (OwningTable d)
             (dragTarget d) (dragInsert d) (inDragOver d) (undoEdits d).

(** [prepareUndo] ... [finishAndPostUndo] *)
Definition postUndo (d : bodySettingsDockable) : bodySettingsDockable :=
  mkDockable (self d) (Locations d) (OwningTable d) (dragTarget d) (dragInsert d)
             (inDragOver d) (S (undoEdits d)).

(** The accepted drag payload: present, of the right type, and from this
    dockable. *)
Definition ownPanel (d : bodySettingsDockable) (data : option DragValue)
    : option hitLocationSettingsPanel :=
  match data with
  | Some (HitLocationPanelValue dd) =>
      if bool_decide (dockable dd = self d) then Some dd else None
  | _ => None
  end.

(** The loop of [dataDragOver]: the first child whose frame contains the
    pointer decides the insertion index, [i + 1] below the centre and
    [i] above it. *)
Fixpoint dragInsertFrom (i : Z) (children : list ChildFrame) : option Z :=
  match children with
  | [] => None
  | child :: rest =>
      if ContainsPoint child
      then Some (if CenterYAtOrAbove child then i + 1 else i)
      else dragInsertFrom (i + 1) rest
  end.

(** [dataDragOver]; [parent] is [dd.Parent()] and [children] what the
    pointer test gives for [parent.Children()]. *)
Definition dataDragOver (parent : nat) (children : list ChildFrame)
    (data : option DragValue) (d : bodySettingsDockable) : bodySettingsDockable :=
  let d0 := withDrag d None (-1) false in
  match ownPanel d0 data with
  | Some dd =>
      match dragInsertFrom 0 children with
      | Some j => withDrag d0 (Some parent) j true
      | None => d0
      end
  | None => d0
  end.

(** [dataDragExit] *)
Definition dataDragExit (d : bodySettingsDockable) : bodySettingsDockable :=
  withDrag d None (-1) false.

(** [dataDragDrop]; [None] is a run-time panic.  [table.Update] (roll
    ranges) and [d.sync] (rebuilding the widgets) do not touch the order
    of [Locations]. *)
Definition dataDragDrop (data : option DragValue) (d : bodySettingsDockable)
    : option bodySettingsDockable :=
  if inDragOver d && bool_decide (dragInsert d ≠ -1)
  then
    match ownPanel d data with
    | Some dd =>
        table ← OwningTable d !! loc dd;
        let locations := default [] (Locations d !! table) in
        let i := slices.Index locations (loc dd) in
        locations ← slices.Delete locations i (i + 1);
        let j := if bool_decide (i < dragInsert d) then dragInsert d - 1
                 else dragInsert d in
        locations ← slices.Insert locations j (loc dd);
        Some (dataDragExit (postUndo (withLocations d table locations)))
    | None => Some (dataDragExit d)
    end
  else Some (dataDragExit d).

(** ** The tree invariant

    What the specification asks of the tree, as far as the editor relies
    on it: the children of a list are pairwise distinct, and each of
    them points back to the list as its parent (so each is allocated).
    A node that was taken out of its list may keep its parent pointer. *)
Definition wellFormed (h : gmap nat PrereqObj) : Prop :=
  ∀ L o, h !! L = Some o →
    NoDup (Prereqs o) ∧ ∀ c, c ∈ Prereqs o → ParentList h c = Some L.

(** ** Sample states

    A root list (conjunction) at address 0 with two trait leaves at 1
    and 2, labelled as the panel constructors label them. *)
Definition sampleHeap : gmap nat PrereqObj :=
  <[0%nat := mkPrereq ListPrereqType None true [1%nat; 2%nat]]>
  (<[1%nat := mkPrereq TraitPrereqType (Some 0%nat) false []]>
  (<[2%nat := mkPrereq TraitPrereqType (Some 0%nat) false []]> ∅)).

Definition samplePanel : prereqPanel :=
  mkPanel sampleHeap 0%nat
          (<[0%nat := mkLabel ""]> (<[1%nat := mkLabel ""]> (<[2%nat := mkLabel "and"]> ∅)))
          initialLastPrereqTypeUsed 0 [].

(** A dockable (identity 7) in the middle of a drag: one table at
    address 10 holding the locations 1, 2 and 3, location 1 being
    dragged and the pointer asking for insertion index 2. *)
Definition sampleDockable : bodySettingsDockable :=
  mkDockable 7%nat (<[10%nat := [1%nat; 2%nat; 3%nat]]> ∅)
             (<[1%nat := 10%nat]> (<[2%nat := 10%nat]> (<[3%nat := 10%nat]> ∅)))
             (Some 20%nat) 2 true 0.

Definition sampleDrag : option DragValue :=
  Some (HitLocationPanelValue (mkHitLocationPanel 7%nat 1%nat)).

(** A panel whose last-used type is outside the enumeration. *)
Definition strayTypePanel : prereqPanel :=
  mkPanel sampleHeap 0%nat (andOrMap samplePanel) (OtherPrereqType 8) 0 [].

(** ** More of the prerequisite panel *)

(** [createPrereqListPanel], as [newPrereqPanel] calls it for the root:
    the label of the list, then the panels of its children (the list
    case of [addToList] is this function). *)
Definition createPrereqListPanel (fuel : nat) (lst : Prereq) (p : prereqPanel)
    : prereqPanel :=
  foldl (λ q c, addToList fuel c q) (addAndOr lst p) (PrereqsOf (heap p) lst).

(** [newPrereqPanel]: an empty side table, then the panel of the root
    list.  [last] is the value the package variable [lastPrereqTypeUsed]
    has when the panel is made. *)
Definition newPrereqPanel (h : gmap nat PrereqObj) (root : Prereq)
    (last : PrereqType) : prereqPanel :=
  createPrereqListPanel (size h) root (mkPanel h root ∅ last 0 []).

(** The selection callback of the "requires all of / at least one of"
    popup of a list panel: the callback [addBoolPopup] installed stores
    the choice in [list.All], then [adjustAndOrForList(list)] runs. *)
Definition allPopupSelectionChanged (lst : Prereq) (all : bool) (p : prereqPanel)
    : prereqPanel :=
  adjustAndOrForList lst (withHeap p (setAll (heap p) lst all)).

(** Every label of the side table shows the connective of its node. *)
Definition allLabelsRight (p : prereqPanel) : Prop :=
  ∀ c label, andOrMap p !! c = Some label → Text label = andOrText (heap p) c.

(** Every labelled node that is a child of some list shows its
    connective.  (A node taken out of its list may keep a stale label.) *)
Definition labelsRight (p : prereqPanel) : Prop :=
  ∀ P c label, c ∈ PrereqsOf (heap p) P → andOrMap p !! c = Some label →
               Text label = andOrText (heap p) c.

(** What building panels does to the state: the tree, the last-used
    type and the modification count stay, labels that are right stay
    right, and no label is dropped. *)
Definition onlyAddsLabels (p q : prereqPanel) : Prop :=
  heap q = heap p
  ∧ lastPrereqTypeUsed q = lastPrereqTypeUsed p
  ∧ modified q = modified p
  ∧ (allLabelsRight p → allLabelsRight q)
  ∧ (∀ k, is_Some (andOrMap p !! k) → is_Some (andOrMap q !! k)).

(** ** More of the body settings dockable *)

(** Where [drawOver] draws the insertion line: at the top edge of a
    child of the drag target, or at the bottom edge of one. *)
Inductive DropLine :=
  | TopOfChild (i : nat)
  | BottomOfChild (i : nat).

(** [drawOver], with [children] the number of children of the drag
    target: [Some None] when nothing is drawn, [None] for a panic (nil
    drag target, or an index outside the children). *)
Definition drawOver (children : nat) (d : bodySettingsDockable)
    : option (option DropLine) :=
  if inDragOver d && bool_decide (dragInsert d ≠ -1)
  then
    _ ← dragTarget d;
    if bool_decide (dragInsert d < Z.of_nat children)
    then
      if bool_decide (0 ≤ dragInsert d)
      then Some (Some (TopOfChild (Z.to_nat (dragInsert d))))
      else None
    else
      if bool_decide (0 < children)%nat
      then Some (Some (BottomOfChild (children - 1)))
      else None
  else Some None.

(** ** Info pops ([ui/widget/infopop.go]) *)
Module infopop.

(** The labels the functions put into a tooltip. *)
Inductive TipChild :=
  | HelpLabel (text : string)
  | KeyLabel (text : string)
  | DescLabel (text : string).

(** The part of a [unison.Panel] the info pop functions use: the
    tooltip (nil, or a panel with its children) and the immediate flag. *)
Record Target := mkTarget {
  Tooltip : option (list TipChild);
  TooltipImmediate : bool
}.

(** The line feed, byte 10. *)
Definition newline : Ascii.ascii :=
  Ascii.Ascii false true false true false false false false.

(** [strings.Split(text, "\n")]: the pieces between the newlines, one
    more than there are newlines. *)
Fixpoint SplitNewline (text : string) : list string :=
  match text with
  | EmptyString => [EmptyString]
  | String c rest =>
      if Ascii.eqb c newline
      then EmptyString :: SplitNewline rest
      else match SplitNewline rest with
           | first :: more => String c first :: more
           | [] => [String c EmptyString]
           end
  end.

(** [ClearInfoPop] *)
Definition ClearInfoPop (target : Target) : Target := mkTarget None false.

(** [prepareInfoPop]: the immediate flag is set and a missing tooltip is
    created empty; the function returns the tooltip, here its children
    together with the updated target. *)
Definition prepareInfoPop (target : Target) : list TipChild * Target :=
  let tip := match Tooltip target with
             | Some tip => tip
             | None => []
             end in
  (tip, mkTarget (Some tip) true).

(** [AddHelpToInfoPop]: one label per line, except that empty lines are
    skipped as long as the tooltip has no children. *)
Definition AddHelpToInfoPop (target : Target) (text : string) : Target :=
  let (tip, panel) := prepareInfoPop target in
  mkTarget
    (Some (foldl (λ tip str,
                    if String.eqb str "" && Nat.eqb (length tip) 0
                    then tip
                    else tip ++ [HelpLabel str])
                 tip (SplitNewline text)))
    (TooltipImmediate panel).

(** [AddKeyBindingInfoToInfoPop]; [key] is [keyBinding.String()]. *)
Definition AddKeyBindingInfoToInfoPop (target : Target) (key text : string)
    : Target :=
  let (tip, panel) := prepareInfoPop target in
  mkTarget (Some (tip ++ [KeyLabel key; DescLabel text])) (TooltipImmediate panel).

(** [AddScalingHelpToInfoPop]; [modifier] is
    [unison.OptionModifier.String()], which [fmt.Sprintf] puts in place
    of the verb.  The text (as written in the source, untranslated)
    starts with a newline. *)
Definition AddScalingHelpToInfoPop (target : Target) (modifier : string) : Target :=
  AddHelpToInfoPop target
    (String newline
       ("Holding down the " ++ modifier ++ " key while using"
        ++ String newline "the mouse wheel will change the scale."))%string.

(** [NewDefaultInfoPop]: a new button has no tooltip. *)
Definition NewDefaultInfoPop (modifier : string) : Target :=
  AddScalingHelpToInfoPop (mkTarget None false) modifier.

End infopop.

(** ** Table providers: columns and headers *)

(** The headers the providers create. *)
Inductive ColumnHeader :=
  | EditorListHeader (title tooltip : string) (forPage : bool)
  | EditorPageRefHeader (forPage : bool)
  | EnabledHeader (forPage : bool).

Module spellsProvider.

(** The column constants of [model] that [Headers] switches on (being
    cases of one switch they are pairwise distinct); any other [int] is
    [OtherColumn]. *)
Inductive Column :=
  | SpellDescriptionColumn
  | SpellDescriptionForPageColumn
  | SpellResistColumn
  | SpellClassColumn
  | SpellCollegeColumn
  | SpellCastCostColumn
  | SpellMaintainCostColumn
  | SpellCastTimeColumn
  | SpellDurationColumn
  | SpellDifficultyColumn
  | SpellTagsColumn
  | SpellReferenceColumn
  | SpellLevelColumn
  | SpellRelativeLevelColumn
  | SpellPointsColumn
  | OtherColumn (id : Z).

#[global] Instance SpellColumn_eq_dec : EqDecision Column.
Proof. solve_decision. Defined.

(** [ColumnIDs]; [providerIsEntity] is the outcome of the type assertion
    on [p.provider], whether it is a pointer to a [model.Entity]. *)
Definition ColumnIDs (forPage providerIsEntity : bool) : list Column :=
  (if forPage
   then if providerIsEntity
        then [SpellDescriptionForPageColumn; SpellLevelColumn;
              SpellRelativeLevelColumn; SpellPointsColumn]
        else [SpellDescriptionForPageColumn; SpellDifficultyColumn;
              SpellPointsColumn]
   else [SpellDescriptionColumn; SpellCollegeColumn; SpellResistColumn;
         SpellClassColumn; SpellCastCostColumn; SpellMaintainCostColumn;
         SpellCastTimeColumn; SpellDurationColumn; SpellDifficultyColumn;
         SpellTagsColumn])
  ++ [SpellReferenceColumn].

(** The switch of [Headers]: the header appended for one id, if any. *)
Definition headerFor (forPage : bool) (id : Column) : option ColumnHeader :=
  match id with
  | SpellDescriptionColumn | SpellDescriptionForPageColumn =>
      Some (EditorListHeader "Spell" "" forPage)
  | SpellResistColumn => Some (EditorListHeader "Resist" "Resistance" forPage)
  | SpellClassColumn => Some (EditorListHeader "Class" "" forPage)
  | SpellCollegeColumn => Some (EditorListHeader "College" "" forPage)
  | SpellCastCostColumn =>
      Some (EditorListHeader "Cost" "The mana cost to cast the spell" forPage)
  | SpellMaintainCostColumn =>
      Some (EditorListHeader "Maintain" "The mana cost to maintain the spell" forPage)
  | SpellCastTimeColumn =>
      Some (EditorListHeader "Time" "The time required to cast the spell" forPage)
  | SpellDurationColumn => Some (EditorListHeader "Duration" "" forPage)
  | SpellDifficultyColumn => Some (EditorListHeader "Diff" "Difficulty" forPage)
  | SpellTagsColumn => Some (EditorListHeader "Tags" "" forPage)
  | SpellReferenceColumn => Some (EditorPageRefHeader forPage)
  | SpellLevelColumn => Some (EditorListHeader "SL" "Skill Level" forPage)
  | SpellRelativeLevelColumn =>
      Some (EditorListHeader "RSL" "Relative Skill Level" forPage)
  | SpellPointsColumn => Some (EditorListHeader "Pts" "Points" forPage)
  | OtherColumn _ => None
  end.

(** [Headers]: [for _, id := range ids { switch id { ... } }] *)
Definition Headers (forPage providerIsEntity : bool) : list ColumnHeader :=
  omap (headerFor forPage) (ColumnIDs forPage providerIsEntity).

(** [HierarchyColumnID] and [ExcessWidthColumnID] *)
Definition HierarchyColumnID (forPage : bool) : Column :=
  if forPage then SpellDescriptionForPageColumn else SpellDescriptionColumn.

Definition ExcessWidthColumnID (forPage : bool) : Column :=
  HierarchyColumnID forPage.

End spellsProvider.

Module traitModifiersProvider.

Inductive Column :=
  | TraitModifierEnabledColumn
  | TraitModifierDescriptionColumn
  | TraitModifierCostColumn
  | TraitModifierTagsColumn
  | TraitModifierReferenceColumn
  | OtherColumn (id : Z).

#[global] Instance TraitModifierColumn_eq_dec : EqDecision Column.
Proof. solve_decision. Defined.

(** [ColumnIDs] *)
Definition ColumnIDs (forEditor : bool) : list Column :=
  (if forEditor then [TraitModifierEnabledColumn] else [])
  ++ [TraitModifierDescriptionColumn; TraitModifierCostColumn;
      TraitModifierTagsColumn; TraitModifierReferenceColumn].

Definition headerFor (id : Column) : option ColumnHeader :=
  match id with
  | TraitModifierEnabledColumn => Some (EnabledHeader false)
  | TraitModifierDescriptionColumn =>
      Some (EditorListHeader "Trait Modifier" "" false)
  | TraitModifierCostColumn => Some (EditorListHeader "Cost Modifier" "" false)
  | TraitModifierTagsColumn => Some (EditorListHeader "Tags" "" false)
  | TraitModifierReferenceColumn => Some (EditorPageRefHeader false)
  | OtherColumn _ => None
  end.

(** [Headers] *)
Definition Headers (forEditor : bool) : list ColumnHeader :=
  omap headerFor (ColumnIDs forEditor).

Definition HierarchyColumnID : Column := TraitModifierDescriptionColumn.

Definition ExcessWidthColumnID : Column := TraitModifierDescriptionColumn.

End traitModifiersProvider.

(** * Properties *)

(** ** Slices *)
Section SliceFacts.
Context {E : Type}.
Implicit Types (s l : list E) (f : E → bool).

Lemma IndexFuncFrom_found i l1 x l2 f :
  Forall (λ y, f y = false) l1 → f x = true →
  slices.IndexFuncFrom i (l1 ++ x :: l2) f = i + Z.of_nat (length l1).
Proof.
  intros Hl1 Hx. revert i.
  induction Hl1 as [|y l1 Hy _ IH]; intros i; simpl.
  - rewrite Hx. lia.
  - rewrite Hy, IH. lia.
Qed.

Lemma IndexFuncFrom_absent i s f :
  Forall (λ y, f y = false) s → slices.IndexFuncFrom i s f = -1.
Proof.
  intros Hs. revert i. induction Hs as [|y s Hy _ IH]; intros i; simpl; [done|].
  by rewrite Hy, IH.
Qed.

Lemma IndexFuncFrom_range i s f :
  0 ≤ i →
  slices.IndexFuncFrom i s f = -1
  ∨ i ≤ slices.IndexFuncFrom i s f < i + Z.of_nat (length s).
Proof.
  revert i. induction s as [|x s IH]; intros i Hi; simpl; [by left|].
  destruct (f x); [right; lia|].
  destruct (IH (i + 1)) as [->|?]; [lia|by left|right; lia].
Qed.

Lemma Insert_in_range s (i : nat) v :
  (i ≤ length s)%nat →
  slices.Insert s (Z.of_nat i) v = Some (take i s ++ v :: drop i s).
Proof.
  intros Hi. unfold slices.Insert.
  rewrite bool_decide_eq_true_2 by lia. by rewrite Nat2Z.id.
Qed.

Lemma Insert_front s v : slices.Insert s 0 v = Some (v :: s).
Proof. apply (Insert_in_range s 0 v). lia. Qed.

Lemma Insert_out_of_range s i v :
  Z.of_nat (length s) < i → slices.Insert s i v = None.
Proof. intros Hi. unfold slices.Insert. rewrite bool_decide_eq_false_2; [done|lia]. Qed.

Lemma Delete_one l1 x l2 :
  slices.Delete (l1 ++ x :: l2) (Z.of_nat (length l1)) (Z.of_nat (length l1) + 1)
  = Some (l1 ++ l2).
Proof.
  unfold slices.Delete.
  rewrite bool_decide_eq_true_2 by (rewrite length_app; simpl; lia).
  replace (Z.to_nat (Z.of_nat (length l1) + 1)) with (length l1 + 1)%nat by lia.
  rewrite Nat2Z.id, take_app_length, drop_app_ge by lia.
  by replace (length l1 + 1 - length l1)%nat with 1%nat by lia.
Qed.
End SliceFacts.

(** ** Heap reads after a field write *)
Section HeapFacts.
Implicit Types (h : gmap nat PrereqObj) (pr lst : nat).

Lemma ParentList_setPrereqs h lst ps pr :
  ParentList (setPrereqs h lst ps) pr = ParentList h pr.
Proof.
  unfold ParentList, setPrereqs. rewrite lookup_alter.
  case_decide; subst; by destruct (h !! pr).
Qed.

Lemma ParentList_setAll h lst b pr :
  ParentList (setAll h lst b) pr = ParentList h pr.
Proof.
  unfold ParentList, setAll. rewrite lookup_alter.
  case_decide; subst; by destruct (h !! pr).
Qed.

Lemma PrereqsOf_setAll h lst b pr :
  PrereqsOf (setAll h lst b) pr = PrereqsOf h pr.
Proof.
  unfold PrereqsOf, setAll. rewrite lookup_alter.
  case_decide; subst; by destruct (h !! pr).
Qed.

Lemma PrereqsOf_setPrereqs_eq h lst ps :
  is_Some (h !! lst) → PrereqsOf (setPrereqs h lst ps) lst = ps.
Proof.
  intros [o Ho]. unfold PrereqsOf, setPrereqs. by rewrite lookup_alter_eq, Ho.
Qed.

Lemma PrereqsOf_setPrereqs_ne h lst ps pr :
  lst ≠ pr → PrereqsOf (setPrereqs h lst ps) pr = PrereqsOf h pr.
Proof.
  intros Hne. unfold PrereqsOf, setPrereqs. by rewrite lookup_alter_ne.
Qed.

Lemma AllOf_setPrereqs h lst ps pr :
  AllOf (setPrereqs h lst ps) pr = AllOf h pr.
Proof.
  unfold AllOf, setPrereqs. rewrite lookup_alter.
  case_decide; subst; by destruct (h !! pr).
Qed.

Lemma AllOf_setAll_eq h lst b :
  is_Some (h !! lst) → AllOf (setAll h lst b) lst = b.
Proof.
  intros [o Ho]. unfold AllOf, setAll. by rewrite lookup_alter_eq, Ho.
Qed.

Lemma PrereqsOf_allocated h lst :
  PrereqsOf h lst ≠ [] → is_Some (h !! lst).
Proof. unfold PrereqsOf. destruct (h !! lst); [eauto|done]. Qed.

(** The first child of its parent list has no connective, whatever
    the combinator flag. *)
Lemma andOrText_first h lst pr :
  ParentList h pr = Some lst → head (PrereqsOf h lst) = Some pr →
  andOrText h pr = noAndOr.
Proof.
  intros Hp Hhd. unfold andOrText. rewrite Hp.
  rewrite (bool_decide_eq_true_2 (head _ = _)) by done.
  by rewrite orb_true_r.
Qed.

Lemma andOrText_few h lst pr :
  ParentList h pr = Some lst → (length (PrereqsOf h lst) < 2)%nat →
  andOrText h pr = noAndOr.
Proof.
  intros Hp Hlen. unfold andOrText. rewrite Hp.
  by rewrite (bool_decide_eq_true_2 (_ < _)%nat) by done.
Qed.

Lemma andOrText_later h lst pr :
  ParentList h pr = Some lst → (2 ≤ length (PrereqsOf h lst))%nat →
  head (PrereqsOf h lst) ≠ Some pr →
  andOrText h pr = if AllOf h lst then "and" else "or".
Proof.
  intros Hp Hlen Hhd. unfold andOrText. rewrite Hp.
  rewrite (bool_decide_eq_false_2 (_ < _)%nat) by lia.
  by rewrite (bool_decide_eq_false_2 (head _ = _)) by done.
Qed.
End HeapFacts.

(** ** The connective label (C1) *)

(** C1: in a list [L] whose children are pairwise distinct and point
    back to [L], the connective computed for the child at position [i]
    is none when [i = 0] or [L] has fewer than two children, and
    otherwise "and" when [L.All] holds and "or" when it does not; the
    text of the first child is the same whatever [L.All] is set to. *)
Theorem andOrText_by_position (h : gmap nat PrereqObj) (L c : nat) (i : nat) :
  ParentList h c = Some L →
  NoDup (PrereqsOf h L) →
  PrereqsOf h L !! i = Some c →
  andOrText h c
  = (if bool_decide (i = 0%nat ∨ (length (PrereqsOf h L) < 2)%nat) then noAndOr
     else if AllOf h L then "and" else "or")
  ∧ (i = 0%nat → ∀ b, andOrText (setAll h L b) c = andOrText h c).
Proof.
  intros Hp Hnd Hi. split.
  - case_bool_decide as Hcase.
    + destruct Hcase as [->|Hlen].
      * apply (andOrText_first h L); [done|]. by rewrite head_lookup.
      * by apply (andOrText_few h L).
    + apply (andOrText_later h L); [done|lia|].
      rewrite head_lookup. intros H0.
      assert (i = 0%nat) by (eapply NoDup_lookup; eauto). lia.
  - intros -> b.
    rewrite (andOrText_first h L c) by (by rewrite ?head_lookup).
    apply (andOrText_first _ L).
    + by rewrite ParentList_setAll.
    + by rewrite PrereqsOf_setAll, head_lookup.
Qed.

Lemma andOrText_by_position_witness :
  andOrText sampleHeap 2 = "and"
  ∧ (1%nat = 0%nat → ∀ b, andOrText (setAll sampleHeap 0 b) 2 = andOrText sampleHeap 2).
Proof.
  apply (andOrText_by_position sampleHeap 0 2 1).
  - reflexivity.
  - apply (bool_decide_unpack (NoDup _)). vm_compute. exact I.
  - reflexivity.
Defined.

(** ** Refreshing the labels of a list (C8) *)
Section LabelFacts.
Implicit Types (p q : prereqPanel) (c k lst : nat) (cs : list nat).

Lemma withAndOrMap_id p : withAndOrMap p (andOrMap p) = p.
Proof. by destruct p. Qed.

Lemma withAndOrMap_twice p m m' :
  withAndOrMap (withAndOrMap p m) m' = withAndOrMap p m'.
Proof. done. Qed.

Lemma adjustAndOr_frame c p :
  adjustAndOr c p = withAndOrMap p (andOrMap (adjustAndOr c p)).
Proof.
  unfold adjustAndOr. destruct (andOrMap p !! c) as [label|];
    [case_bool_decide|]; simpl; by rewrite ?withAndOrMap_id.
Qed.

Lemma adjustAndOr_lookup c p k :
  andOrMap (adjustAndOr c p) !! k
  = if decide (k = c) then relabel (heap p) k (andOrMap p !! k)
    else andOrMap p !! k.
Proof.
  unfold adjustAndOr, relabel.
  destruct (andOrMap p !! c) as [[text]|] eqn:Hc.
  - case_bool_decide as Htext; simpl in *.
    + rewrite lookup_insert. repeat case_decide; subst; try done.
      all: by rewrite Hc.
    + case_decide; subst; [|done]. by rewrite Hc.
  - case_decide; subst; [|done]. by rewrite Hc.
Qed.

Lemma adjustAndOr_unchanged c p label :
  andOrMap p !! c = Some label → Text label = andOrText (heap p) c →
  adjustAndOr c p = p.
Proof.
  intros Hc Htext. unfold adjustAndOr. rewrite Hc.
  by rewrite bool_decide_eq_false_2 by (intros H; by apply H).
Qed.

Lemma foldl_adjustAndOr cs p :
  let q := foldl (λ q one, adjustAndOr one q) p cs in
  q = withAndOrMap p (andOrMap q)
  ∧ ∀ k, andOrMap q !! k
         = if decide (k ∈ cs) then relabel (heap p) k (andOrMap p !! k)
           else andOrMap p !! k.
Proof.
  revert p. induction cs as [|c cs IH]; intros p; cbn [foldl].
  - split; [by rewrite withAndOrMap_id|].
    intros k. by rewrite decide_False by set_solver.
  - destruct (IH (adjustAndOr c p)) as [Hq Hk]. split.
    + rewrite Hq at 1. by rewrite (adjustAndOr_frame c p), withAndOrMap_twice.
    + intros k. rewrite Hk, adjustAndOr_lookup.
      rewrite (adjustAndOr_frame c p). simpl. clear IH Hq Hk.
      destruct (decide (k = c)) as [->|Hne].
      * rewrite (decide_True (P := c ∈ c :: cs)) by (apply elem_of_cons; by left).
        case_decide; [|done]. unfold relabel. by destruct (andOrMap p !! c).
      * destruct (decide (k ∈ cs)) as [Hin|Hnin].
        -- by rewrite decide_True by (apply elem_of_cons; by right).
        -- rewrite decide_False; [done|]. rewrite elem_of_cons. tauto.
Qed.

Lemma adjustAndOrForList_frame lst p :
  adjustAndOrForList lst p = withAndOrMap p (andOrMap (adjustAndOrForList lst p)).
Proof. apply foldl_adjustAndOr. Qed.

Lemma adjustAndOrForList_lookup lst p k :
  andOrMap (adjustAndOrForList lst p) !! k
  = if decide (k ∈ PrereqsOf (heap p) lst)
    then relabel (heap p) k (andOrMap p !! k)
    else andOrMap p !! k.
Proof. apply foldl_adjustAndOr. Qed.

Lemma adjustAndOrForList_heap lst p : heap (adjustAndOrForList lst p) = heap p.
Proof. by rewrite adjustAndOrForList_frame. Qed.
End LabelFacts.

(** C8: refreshing the labels of a list twice is the same as refreshing
    them once; the tree is not touched; after a refresh every labelled
    child of the list carries the text computed for it; and a label that
    already carries its text, or belongs to a node that is not a child of
    the list, is left as it is. *)
Theorem adjustAndOrForList_idempotent (p : prereqPanel) (L : nat) :
  adjustAndOrForList L (adjustAndOrForList L p) = adjustAndOrForList L p
  ∧ heap (adjustAndOrForList L p) = heap p
  ∧ (∀ c label, c ∈ PrereqsOf (heap p) L →
       andOrMap (adjustAndOrForList L p) !! c = Some label →
       Text label = andOrText (heap p) c)
  ∧ (∀ c label, andOrMap p !! c = Some label →
       Text label = andOrText (heap p) c ∨ c ∉ PrereqsOf (heap p) L →
       andOrMap (adjustAndOrForList L p) !! c = Some label)
  ∧ (∀ c, andOrMap p !! c = None → andOrMap (adjustAndOrForList L p) !! c = None).
Proof.
  split; [|split; [apply adjustAndOrForList_heap|repeat split]].
  - set (q := adjustAndOrForList L p).
    transitivity (withAndOrMap q (andOrMap q)); [|apply withAndOrMap_id].
    etrans; [apply adjustAndOrForList_frame|]. f_equal.
    apply map_eq. intros k. rewrite (adjustAndOrForList_lookup L q).
    case_decide as Hk; [|done]. subst q.
    rewrite adjustAndOrForList_heap in Hk |- *.
    rewrite adjustAndOrForList_lookup, decide_True by done.
    unfold relabel. by destruct (andOrMap p !! k).
  - intros c label Hc. rewrite adjustAndOrForList_lookup, decide_True by done.
    unfold relabel. destruct (andOrMap p !! c); simpl; [|done].
    by intros [= <-].
  - intros c [text] Hc Hcase. rewrite adjustAndOrForList_lookup, Hc.
    case_decide as Hin; [|done].
    destruct Hcase as [Htext|?]; [|done].
    simpl in *. by rewrite Htext.
  - intros c Hc. rewrite adjustAndOrForList_lookup, Hc. by case_decide.
Qed.

(** ** Creating nodes and their panels *)
Section CreateFacts.
Implicit Types (p q : prereqPanel) (c lst : nat) (t : PrereqType).

Lemma fresh_unallocated p : heap p !! fresh (dom (heap p)) = None.
Proof. apply not_elem_of_dom, is_fresh. Qed.

Lemma createPrereqForType_known t parentList p :
  knownPrereqType t = true →
  createPrereqForType t parentList p
  = (Some (fresh (dom (heap p))),
     withHeap p (<[fresh (dom (heap p))
                   := mkPrereq t parentList (bool_decide (t = ListPrereqType)) []]>
                 (heap p))).
Proof. by destruct t. Qed.

Lemma createPrereqForType_unknown t parentList p :
  knownPrereqType t = false →
  createPrereqForType t parentList p = (None, Warn p (UnknownPrereqTypeWarning t)).
Proof. by destruct t. Qed.

(** The panel of a node without children registers exactly one label,
    whatever the fuel. *)
Lemma addToList_childless fuel c p o :
  heap p !! c = Some o → knownPrereqType (prereqType o) = true →
  Prereqs o = [] →
  addToList fuel c p = addAndOr c p.
Proof.
  intros Hc Hknown Hnil.
  destruct fuel; simpl; rewrite Hc; simpl;
    destruct (prereqType o); try done.
  unfold PrereqsOf. rewrite Hc. simpl. by rewrite Hnil.
Qed.
End CreateFacts.

(** ** Adding a child (C6, C9) *)
Section AddFacts.
Implicit Types (p q : prereqPanel) (c L : nat) (t : PrereqType).

Lemma PrereqsOf_insert_ne (h : gmap nat PrereqObj) c o L :
  c ≠ L → PrereqsOf (<[c := o]> h) L = PrereqsOf h L.
Proof. intros Hne. unfold PrereqsOf. by rewrite lookup_insert_ne. Qed.

Lemma fresh_ne_allocated p L : is_Some (heap p !! L) → fresh (dom (heap p)) ≠ L.
Proof.
  intros [o Ho] Heq. pose proof (fresh_unallocated p) as Hf.
  rewrite Heq in Hf. congruence.
Qed.

(** The state a click on the add button leaves when the last-used
    type is one of the eight. *)
Lemma addPrereqButtonClick_known p L :
  is_Some (heap p !! L) → knownPrereqType (lastPrereqTypeUsed p) = true →
  addPrereqButtonClick L p
  = Some (MarkModified (adjustAndOrForList L (addAndOr (fresh (dom (heap p)))
      (withHeap p
         (setPrereqs
            (<[fresh (dom (heap p))
               := mkPrereq (lastPrereqTypeUsed p) (Some L)
                           (bool_decide (lastPrereqTypeUsed p = ListPrereqType)) []]>
             (heap p))
            L (fresh (dom (heap p)) :: PrereqsOf (heap p) L)))))).
Proof.
  intros HL Hknown. pose proof (fresh_ne_allocated p L HL) as Hne.
  unfold addPrereqButtonClick.
  rewrite createPrereqForType_known by done. cbn [heap withHeap].
  rewrite Insert_front. cbn [mbind option_bind].
  rewrite PrereqsOf_insert_ne by done.
  rewrite (addToList_childless _ _ _
             (mkPrereq (lastPrereqTypeUsed p) (Some L)
                       (bool_decide (lastPrereqTypeUsed p = ListPrereqType)) []));
    [done| |done..].
  cbn [heap withHeap]. unfold setPrereqs.
  by rewrite lookup_alter_ne, lookup_insert_eq by done.
Qed.
End AddFacts.

Lemma addPrereqButtonClick_step (p : prereqPanel) (L : nat) :
  is_Some (heap p !! L) → knownPrereqType (lastPrereqTypeUsed p) = true →
  ∃ created p',
    addPrereqButtonClick L p = Some p'
    ∧ heap p !! created = None
    ∧ heap p' !! created
      = Some (mkPrereq (lastPrereqTypeUsed p) (Some L)
                       (bool_decide (lastPrereqTypeUsed p = ListPrereqType)) [])
    ∧ PrereqsOf (heap p') L = created :: PrereqsOf (heap p) L
    ∧ (∀ k, k ≠ L → k ≠ created → heap p' !! k = heap p !! k)
    ∧ is_Some (heap p' !! L)
    ∧ lastPrereqTypeUsed p' = lastPrereqTypeUsed p
    ∧ modified p' = S (modified p).
Proof.
  intros HL Hknown. pose proof (fresh_ne_allocated p L HL) as Hne.
  eexists _, _. split; [by apply addPrereqButtonClick_known|].
  cbn [heap MarkModified lastPrereqTypeUsed modified].
  rewrite adjustAndOrForList_heap, adjustAndOrForList_frame.
  cbn [heap addAndOr withAndOrMap withHeap lastPrereqTypeUsed modified].
  split; [apply fresh_unallocated|]. unfold setPrereqs.
  split; [by rewrite lookup_alter_ne, lookup_insert_eq by done|].
  split.
  { apply PrereqsOf_setPrereqs_eq. rewrite lookup_insert_ne by done. done. }
  split.
  { intros k HkL Hkc. by rewrite lookup_alter_ne, lookup_insert_ne by done. }
  split; [|done].
  rewrite lookup_alter_eq, lookup_insert_ne by done.
  destruct HL as [o ->]. by eexists.
Qed.

(** C6: with [L] an allocated list and the last-used type one of the
    eight (at start it is the trait type), a click on the add button of
    [L] allocates a node of that type with its defaults and [L] as
    parent and puts it at position 0 of [L.Prereqs], every former child
    moving one position later; a second click puts its node at position
    0 and the first one at position 1. *)
Theorem addPrereqButtonClick_inserts_first (p : prereqPanel) (L : nat) :
  is_Some (heap p !! L) → knownPrereqType (lastPrereqTypeUsed p) = true →
  initialLastPrereqTypeUsed = TraitPrereqType
  ∧ ∃ created p',
      addPrereqButtonClick L p = Some p'
      ∧ heap p !! created = None
      ∧ heap p' !! created
        = Some (mkPrereq (lastPrereqTypeUsed p) (Some L)
                         (bool_decide (lastPrereqTypeUsed p = ListPrereqType)) [])
      ∧ PrereqsOf (heap p') L !! 0%nat = Some created
      ∧ (∀ i, PrereqsOf (heap p') L !! S i = PrereqsOf (heap p) L !! i)
      ∧ modified p' = S (modified p)
      ∧ ∃ second p'',
          addPrereqButtonClick L p' = Some p''
          ∧ second ≠ created
          ∧ PrereqsOf (heap p'') L = second :: created :: PrereqsOf (heap p) L.
Proof.
  intros HL Hknown. split; [done|].
  destruct (addPrereqButtonClick_step p L HL Hknown)
    as (created & p' & Hclick & Hfresh & Hobj & Hps & _ & HL' & Hlast & Hmod).
  exists created, p'. rewrite Hps. repeat split; try done.
  rewrite <- Hlast in Hknown.
  destruct (addPrereqButtonClick_step p' L HL' Hknown)
    as (second & p'' & Hclick' & Hfresh' & _ & Hps' & _).
  exists second, p''. repeat split; [done| |by rewrite Hps', Hps].
  intros ->. congruence.
Qed.

(** ** Deleting a node (C4, C2) *)
Section DeleteFacts.
Implicit Types (p q : prereqPanel) (n P : nat).

Lemma IndexFunc_first (l1 l2 : list nat) n :
  n ∉ l1 →
  slices.IndexFunc (l1 ++ n :: l2) (λ elem, bool_decide (elem = n))
  = Z.of_nat (length l1).
Proof.
  intros Hn. unfold slices.IndexFunc. rewrite IndexFuncFrom_found; [lia| |].
  - apply Forall_forall. intros y Hy. apply bool_decide_eq_false_2.
    by intros ->.
  - by apply bool_decide_eq_true_2.
Qed.

Lemma IndexFunc_absent (l : list nat) n :
  n ∉ l → slices.IndexFunc l (λ elem, bool_decide (elem = n)) = -1.
Proof.
  intros Hn. apply IndexFuncFrom_absent, Forall_forall.
  intros y Hy. apply bool_decide_eq_false_2. by intros ->.
Qed.

Lemma deleteButtonClick_found p n P l1 l2 :
  PrereqsOf (heap p) P = l1 ++ n :: l2 → n ∉ l1 →
  deleteButtonClick n P p
  = Some (MarkModified (adjustAndOrForList P
            (withHeap (withAndOrMap p (delete n (andOrMap p)))
                      (setPrereqs (heap p) P (l1 ++ l2))))).
Proof.
  intros Hps Hn. unfold deleteButtonClick. cbn [heap withAndOrMap].
  rewrite Hps, IndexFunc_first by done.
  rewrite bool_decide_eq_true_2 by lia.
  by rewrite Delete_one.
Qed.

Lemma deleteButtonClick_absent p n P :
  n ∉ PrereqsOf (heap p) P →
  deleteButtonClick n P p
  = Some (MarkModified (adjustAndOrForList P
            (withAndOrMap p (delete n (andOrMap p))))).
Proof.
  intros Hn. unfold deleteButtonClick. cbn [heap withAndOrMap].
  rewrite IndexFunc_absent by done.
  by rewrite bool_decide_eq_false_2 by (intros H; by apply H).
Qed.

(** Refreshing never adds a side-table entry. *)
Lemma adjustAndOrForList_lookup_None P p n :
  andOrMap p !! n = None → andOrMap (adjustAndOrForList P p) !! n = None.
Proof.
  intros Hn. rewrite adjustAndOrForList_lookup, Hn. by case_decide.
Qed.
End DeleteFacts.

(** C4: a node without a parent list (the root) gets no delete button,
    so there is no delete operation on it; for a node [n] with parent
    list [P], the click on its delete button removes [n] (its first and,
    children being distinct, only occurrence) from [P.Prereqs], leaves
    every other object as it was, and discards the side-table entry of
    [n]. *)
Theorem deleteButton_root_none_child_removed (p : prereqPanel) (n : nat) :
  (ParentList (heap p) n = None →
     deleteButton (createButtonsPanel (heap p) n) = None)
  ∧ (∀ P l1 l2,
       ParentList (heap p) n = Some P →
       PrereqsOf (heap p) P = l1 ++ n :: l2 → n ∉ l1 →
       ∃ click p',
         deleteButton (createButtonsPanel (heap p) n) = Some click
         ∧ click p = Some p'
         ∧ PrereqsOf (heap p') P = l1 ++ l2
         ∧ (n ∉ l2 → n ∉ PrereqsOf (heap p') P)
         ∧ (∀ k, k ≠ P → heap p' !! k = heap p !! k)
         ∧ andOrMap p' !! n = None).
Proof.
  split.
  - intros Hroot. unfold createButtonsPanel. by rewrite Hroot.
  - intros P l1 l2 HP Hps Hn.
    eexists _, _. split; [unfold createButtonsPanel; by rewrite HP|].
    split; [by apply (deleteButtonClick_found p n P l1 l2)|].
    cbn [heap MarkModified andOrMap]. rewrite adjustAndOrForList_heap.
    cbn [heap withHeap].
    assert (PrereqsOf (setPrereqs (heap p) P (l1 ++ l2)) P = l1 ++ l2) as Hafter.
    { apply PrereqsOf_setPrereqs_eq, PrereqsOf_allocated.
      rewrite Hps. by destruct l1. }
    rewrite Hafter. repeat split.
    + intros Hl2. rewrite elem_of_app. tauto.
    + intros k Hk. unfold setPrereqs. by rewrite lookup_alter_ne.
    + apply adjustAndOrForList_lookup_None. cbn [andOrMap withHeap withAndOrMap].
      apply lookup_delete_eq.
Qed.

(** ** Failed checks (C2) *)

Lemma typeSwitcherSelectionChanged_unknown (p : prereqPanel) (pr : nat) (item : PrereqType) :
  knownPrereqType item = false →
  typeSwitcherSelectionChanged pr (Some item) p
  = Some (Warn p (UnknownPrereqTypeWarning item)).
Proof.
  intros Hitem. unfold typeSwitcherSelectionChanged.
  by rewrite createPrereqForType_unknown.
Qed.

Lemma addPrereqButtonClick_unknown (p : prereqPanel) (L : nat) :
  knownPrereqType (lastPrereqTypeUsed p) = false →
  addPrereqButtonClick L p
  = Some (Warn p (UnknownPrereqTypeWarning (lastPrereqTypeUsed p))).
Proof.
  intros Hlast. unfold addPrereqButtonClick.
  by rewrite createPrereqForType_unknown.
Qed.

(** C2, as stated, fails: after the kind of the second child of the
    sample root has been switched, the replaced node 2 still points to
    the root as its parent and still has its label "and", but it is no
    longer in the root's child sequence [1; 3].  A click on its delete
    button does not find it and leaves the child sequence as it is, and
    yet its side-table entry is gone afterwards. *)
Lemma delete_of_absent_node_drops_label :
  (p1 ← typeSwitcherSelectionChanged 2 (Some SkillPrereqType) samplePanel;
   p2 ← deleteButtonClick 2 0 p1;
   Some (ParentList (heap p1) 2,
         PrereqsOf (heap p1) 0, andOrMap p1 !! 2%nat,
         PrereqsOf (heap p2) 0, andOrMap p2 !! 2%nat))
  = Some (Some 0%nat,
          [1%nat; 3%nat], Some (mkLabel "and"),
          [1%nat; 3%nat], None).
Proof. vm_compute. reflexivity. Qed.

(** C2, amended: a failed check leaves the tree as it was.  When the
    requested type is not one of the eight, the add and the type-switch
    callbacks change nothing but the warning log.  When the node to
    delete is not in its parent's child sequence, the delete callback
    leaves every object of the tree as it was; the side-table entry of
    the node is discarded all the same, the labels of the parent's
    children are refreshed and the modification is reported. *)
Theorem failed_check_leaves_tree (p : prereqPanel) (n P : nat) (item : PrereqType) :
  (n ∉ PrereqsOf (heap p) P →
     ∃ p', deleteButtonClick n P p = Some p'
           ∧ heap p' = heap p
           ∧ andOrMap p' !! n = None
           ∧ (∀ k, k ≠ n →
                andOrMap p' !! k
                = if decide (k ∈ PrereqsOf (heap p) P)
                  then relabel (heap p) k (andOrMap p !! k)
                  else andOrMap p !! k)
           ∧ lastPrereqTypeUsed p' = lastPrereqTypeUsed p
           ∧ modified p' = S (modified p))
  ∧ (knownPrereqType (lastPrereqTypeUsed p) = false →
     ∃ p', addPrereqButtonClick P p = Some p'
           ∧ heap p' = heap p ∧ andOrMap p' = andOrMap p
           ∧ lastPrereqTypeUsed p' = lastPrereqTypeUsed p
           ∧ modified p' = modified p)
  ∧ (knownPrereqType item = false →
     ∃ p', typeSwitcherSelectionChanged n (Some item) p = Some p'
           ∧ heap p' = heap p ∧ andOrMap p' = andOrMap p
           ∧ lastPrereqTypeUsed p' = lastPrereqTypeUsed p
           ∧ modified p' = modified p).
Proof.
  split; [|split].
  - intros Hn. eexists. split; [by apply deleteButtonClick_absent|].
    cbn [heap MarkModified andOrMap lastPrereqTypeUsed modified].
    rewrite adjustAndOrForList_heap. split; [done|].
    split; [apply adjustAndOrForList_lookup_None, lookup_delete_eq|].
    split.
    + intros k Hk. rewrite adjustAndOrForList_lookup.
      cbn [heap andOrMap withAndOrMap]. by rewrite lookup_delete_ne.
    + by rewrite adjustAndOrForList_frame.
  - intros Hlast. eexists. split; [by apply addPrereqButtonClick_unknown|done].
  - intros Hitem. eexists.
    split; [by apply typeSwitcherSelectionChanged_unknown|done].
Qed.

(** C9: when the last-used type is not one of the eight,
    [createPrereqForType] returns nil after logging a warning, and the
    click on the add button inserts nothing, changes no label and
    reports no modification. *)
Theorem addPrereqButtonClick_unknown_type_noop (p : prereqPanel) (L : nat) :
  knownPrereqType (lastPrereqTypeUsed p) = false →
  fst (createPrereqForType (lastPrereqTypeUsed p) (Some L) p) = None
  ∧ warnings (snd (createPrereqForType (lastPrereqTypeUsed p) (Some L) p))
    = warnings p ++ [UnknownPrereqTypeWarning (lastPrereqTypeUsed p)]
  ∧ ∃ p', addPrereqButtonClick L p = Some p'
          ∧ heap p' = heap p
          ∧ PrereqsOf (heap p') L = PrereqsOf (heap p) L
          ∧ andOrMap p' = andOrMap p
          ∧ modified p' = modified p
          ∧ lastPrereqTypeUsed p' = lastPrereqTypeUsed p.
Proof.
  intros Hlast. rewrite createPrereqForType_unknown by done.
  repeat split. eexists. split; [by apply addPrereqButtonClick_unknown|done].
Qed.

(** ** Switching the type of a node (C5) *)

Lemma typeSwitcherSelectionChanged_known
    (p : prereqPanel) (n P : nat) (item : PrereqType) (l1 l2 : list nat) :
  knownPrereqType item = true →
  ParentList (heap p) n = Some P →
  PrereqsOf (heap p) P = l1 ++ n :: l2 → n ∉ l1 →
  typeSwitcherSelectionChanged n (Some item) p
  = Some (MarkModified (addAndOr (fresh (dom (heap p)))
      (withHeap (withLastPrereqTypeUsed p item)
         (setPrereqs
            (<[fresh (dom (heap p))
               := mkPrereq item (Some P) (bool_decide (item = ListPrereqType)) []]>
             (heap p))
            P (l1 ++ fresh (dom (heap p)) :: l2))))).
Proof.
  intros Hitem HP Hps Hn.
  assert (is_Some (heap p !! P)) as HPalloc.
  { apply PrereqsOf_allocated. rewrite Hps. by destruct l1. }
  pose proof (fresh_ne_allocated p P HPalloc) as Hne.
  unfold typeSwitcherSelectionChanged. rewrite HP.
  rewrite createPrereqForType_known by done.
  cbn [mbind option_bind heap withHeap withLastPrereqTypeUsed].
  rewrite PrereqsOf_insert_ne, Hps, IndexFunc_first by done.
  rewrite bool_decide_eq_true_2 by (rewrite length_app; simpl; lia).
  rewrite Nat2Z.id.
  replace (<[length l1:=fresh (dom (heap p))]> (l1 ++ n :: l2))
    with (l1 ++ fresh (dom (heap p)) :: l2)
    by (by rewrite insert_app_r_alt, Nat.sub_diag by lia).
  rewrite (addToList_childless _ _ _
             (mkPrereq item (Some P) (bool_decide (item = ListPrereqType)) []));
    [done| |done..].
  cbn [heap withHeap]. unfold setPrereqs.
  by rewrite lookup_alter_ne, lookup_insert_eq by done.
Qed.

(** C5: for a node [n] at position [i] of its parent list [P] (children
    being distinct) and a type [k] among the eight, the selection
    callback of the type switcher allocates a default node of type [k]
    with parent [P], puts it at position [i] in place of [n], leaves
    every other position as it was, and records [k] as the last-used
    type. *)
Theorem typeSwitcher_replaces_in_place
    (p : prereqPanel) (n P : nat) (k : PrereqType) (i : nat) :
  knownPrereqType k = true →
  ParentList (heap p) n = Some P →
  NoDup (PrereqsOf (heap p) P) →
  PrereqsOf (heap p) P !! i = Some n →
  ∃ created p',
    typeSwitcherSelectionChanged n (Some k) p = Some p'
    ∧ heap p !! created = None
    ∧ heap p' !! created
      = Some (mkPrereq k (Some P) (bool_decide (k = ListPrereqType)) [])
    ∧ PrereqsOf (heap p') P = <[i := created]> (PrereqsOf (heap p) P)
    ∧ PrereqsOf (heap p') P !! i = Some created
    ∧ (∀ j, j ≠ i → PrereqsOf (heap p') P !! j = PrereqsOf (heap p) P !! j)
    ∧ lastPrereqTypeUsed p' = k.
Proof.
  intros Hk HP Hnd Hi.
  pose proof (take_drop_middle _ _ _ Hi) as Hsplit. symmetry in Hsplit.
  assert (n ∉ take i (PrereqsOf (heap p) P)) as Hn.
  { intros Hin. apply list_elem_of_lookup in Hin as [j Hj].
    pose proof (lookup_lt_Some _ _ _ Hj) as Hlt.
    rewrite lookup_take_lt in Hj by (rewrite length_take in Hlt; lia).
    rewrite length_take in Hlt.
    assert (j = i) by (eapply NoDup_lookup; eauto). lia. }
  assert (is_Some (heap p !! P)) as HPalloc.
  { apply PrereqsOf_allocated. intros Hnil. by rewrite Hnil in Hi. }
  pose proof (fresh_ne_allocated p P HPalloc) as Hne.
  eexists _, _.
  split; [by apply (typeSwitcherSelectionChanged_known p n P k _ _ Hk HP Hsplit)|].
  cbn [heap MarkModified addAndOr withAndOrMap withHeap lastPrereqTypeUsed
       withLastPrereqTypeUsed].
  split; [apply fresh_unallocated|].
  split; [unfold setPrereqs; by rewrite lookup_alter_ne, lookup_insert_eq by done|].
  rewrite PrereqsOf_setPrereqs_eq by (by rewrite lookup_insert_ne by done).
  assert (take i (PrereqsOf (heap p) P) ++ fresh (dom (heap p))
            :: drop (S i) (PrereqsOf (heap p) P)
          = <[i := fresh (dom (heap p))]> (PrereqsOf (heap p) P)) as ->.
  { rewrite Hsplit at 3.
    pose proof (lookup_lt_Some _ _ _ Hi) as Hlt.
    rewrite insert_app_r_alt by (rewrite length_take; lia).
    rewrite length_take, Nat.min_l by lia. by rewrite Nat.sub_diag. }
  split; [done|]. split; [|split; [|done]].
  - apply list_lookup_insert_eq. by eapply lookup_lt_Some.
  - intros j Hj. by rewrite list_lookup_insert_ne.
Qed.

(** ** Insert then remove (C7) *)

Lemma setPrereqs_restore (h : gmap nat PrereqObj) (L : nat) (ps : list nat) :
  setPrereqs (setPrereqs h L ps) L (PrereqsOf h L) = h.
Proof.
  apply map_eq. intros k. unfold setPrereqs, PrereqsOf.
  destruct (decide (L = k)) as [->|Hne].
  - rewrite !lookup_alter_eq. by destruct (h !! k) as [[]|].
  - by rewrite !lookup_alter_ne.
Qed.

(** C7: inserting a node [n] that is not among the children of the
    allocated list [L] at a position [k] of [L.Prereqs], and then
    clicking the delete button of [n], gives back the child sequence of
    [L], and with it the whole tree, as it was before the insertion. *)
Theorem Insert_then_delete_restores (p : prereqPanel) (L n : nat) (k : nat) :
  is_Some (heap p !! L) →
  n ∉ PrereqsOf (heap p) L →
  (k ≤ length (PrereqsOf (heap p) L))%nat →
  ∃ ps p',
    slices.Insert (PrereqsOf (heap p) L) (Z.of_nat k) n = Some ps
    ∧ ps !! k = Some n
    ∧ deleteButtonClick n L (withHeap p (setPrereqs (heap p) L ps)) = Some p'
    ∧ PrereqsOf (heap p') L = PrereqsOf (heap p) L
    ∧ heap p' = heap p.
Proof.
  intros HL Hn Hk. eexists _, _.
  split; [by apply Insert_in_range|].
  split.
  { rewrite lookup_app_r by (rewrite length_take; lia).
    by rewrite length_take, Nat.min_l, Nat.sub_diag by lia. }
  assert (n ∉ take k (PrereqsOf (heap p) L)) as Hn'.
  { intros Hin. apply Hn. by eapply subseteq_take. }
  split.
  { apply deleteButtonClick_found; [|done].
    cbn [heap withHeap]. by apply PrereqsOf_setPrereqs_eq. }
  cbn [heap MarkModified]. rewrite adjustAndOrForList_heap. cbn [heap withHeap].
  rewrite take_drop, setPrereqs_restore. done.
Qed.

(** X10: The same round trip through the two buttons themselves: a click on
    the add button of [L] followed by a click on the delete button of
    the node just added. *)
Lemma add_then_delete_restores (p : prereqPanel) (L : nat) :
  is_Some (heap p !! L) → knownPrereqType (lastPrereqTypeUsed p) = true →
  ∃ created p1 click p2,
    addPrereqButtonClick L p = Some p1
    ∧ head (PrereqsOf (heap p1) L) = Some created
    ∧ deleteButton (createButtonsPanel (heap p1) created) = Some click
    ∧ click p1 = Some p2
    ∧ PrereqsOf (heap p2) L = PrereqsOf (heap p) L.
Proof.
  intros HL Hknown.
  destruct (addPrereqButtonClick_step p L HL Hknown)
    as (created & p1 & Hclick & Hfresh & Hobj & Hps & _ & HL1 & _).
  exists created, p1, (deleteButtonClick created L). eexists.
  split; [done|]. split; [by rewrite Hps|].
  split; [unfold createButtonsPanel, ParentList; by rewrite Hobj|].
  split; [by apply (deleteButtonClick_found p1 created L [] _ Hps), not_elem_of_nil|].
  cbn [heap MarkModified]. rewrite adjustAndOrForList_heap. cbn [heap withHeap].
  by apply PrereqsOf_setPrereqs_eq.
Qed.

(** ** Hit-location reordering (C10, C3) *)
Section DragFacts.
Implicit Types (d : bodySettingsDockable) (data : option DragValue).

Lemma Index_first (l1 l2 : list nat) (v : nat) :
  v ∉ l1 → slices.Index (l1 ++ v :: l2) v = Z.of_nat (length l1).
Proof.
  intros Hv. unfold slices.Index, slices.IndexFunc.
  rewrite IndexFuncFrom_found; [lia| |by apply bool_decide_eq_true_2].
  apply Forall_forall. intros y Hy. apply bool_decide_eq_false_2.
  by intros <-.
Qed.

(** The index the reinsertion uses. *)
Lemma dropIndex_in_range (i : nat) (j : Z) (n : nat) :
  (i < n)%nat → 0 ≤ j ≤ Z.of_nat n →
  0 ≤ (if bool_decide (Z.of_nat i < j) then j - 1 else j) ≤ Z.of_nat (n - 1).
Proof. intros Hi Hj. case_bool_decide; lia. Qed.

Lemma dataDragDrop_found d data dd table (l1 l2 : list nat) :
  inDragOver d = true → dragInsert d ≠ -1 →
  ownPanel d data = Some dd →
  OwningTable d !! loc dd = Some table →
  Locations d !! table = Some (l1 ++ loc dd :: l2) →
  loc dd ∉ l1 →
  dataDragDrop data d
  = locations ← slices.Insert (l1 ++ l2)
                   (if bool_decide (Z.of_nat (length l1) < dragInsert d)
                    then dragInsert d - 1 else dragInsert d)
                   (loc dd);
    Some (dataDragExit (postUndo (withLocations d table locations))).
Proof.
  intros Hover Hins Hown Htable Hls Hloc. unfold dataDragDrop.
  rewrite Hover, bool_decide_eq_true_2, Hown, Htable by done.
  cbn [andb mbind option_bind]. rewrite Hls. cbn [from_option id].
  by rewrite Index_first, Delete_one by done.
Qed.

(** The index [dataDragOver] computes lies between the start index
    and the start index plus the number of children tested. *)
Lemma dragInsertFrom_range (i j : Z) (children : list ChildFrame) :
  dragInsertFrom i children = Some j →
  i ≤ j ≤ i + Z.of_nat (length children).
Proof.
  revert i. induction children as [|child rest IH]; intros i; simpl; [done|].
  destruct (ContainsPoint child).
  - destruct (CenterYAtOrAbove child); intros [= <-]; lia.
  - intros Hj. apply IH in Hj. lia.
Qed.

(** X12: When [dataDragOver] accepts the drag, the insertion index it leaves
    lies between 0 and the number of children tested, and the drag
    target is the parent of the dragged panel. *)
Lemma dataDragOver_range parent children data d :
  inDragOver (dataDragOver parent children data d) = true →
  0 ≤ dragInsert (dataDragOver parent children data d)
    ≤ Z.of_nat (length children)
  ∧ dragTarget (dataDragOver parent children data d) = Some parent.
Proof.
  unfold dataDragOver. destruct (ownPanel _ data); [|done].
  destruct (dragInsertFrom 0 children) as [j|] eqn:Hj; [|done].
  intros _. apply dragInsertFrom_range in Hj. simpl. split; [lia|done].
Qed.
End DragFacts.

(** The state a drop leaves, in terms of the dragged location's index
    [i]: a panic when the adjusted drop index is beyond the list left
    after the removal. *)
Lemma dataDragDrop_at
    (d : bodySettingsDockable) (data : option DragValue)
    (dd : hitLocationSettingsPanel) (table : nat) (ls : list nat) (i : nat) :
  inDragOver d = true →
  ownPanel d data = Some dd →
  OwningTable d !! loc dd = Some table →
  Locations d !! table = Some ls →
  ls !! i = Some (loc dd) →
  loc dd ∉ take i ls →
  0 ≤ dragInsert d →
  dataDragDrop data d
  = locations ← slices.Insert (delete i ls)
                   (if bool_decide (Z.of_nat i < dragInsert d)
                    then dragInsert d - 1 else dragInsert d)
                   (loc dd);
    Some (dataDragExit (postUndo (withLocations d table locations))).
Proof.
  intros Hover Hown Htable Hls Hi Hfirst Hrange.
  pose proof (lookup_lt_Some _ _ _ Hi) as Hlt.
  pose proof (take_drop_middle _ _ _ Hi) as Hsplit.
  rewrite (dataDragDrop_found d data dd table (take i ls) (drop (S i) ls));
    [|done|lia|done|done|by rewrite Hsplit|done].
  rewrite length_take, Nat.min_l by lia.
  by rewrite <- delete_take_drop.
Qed.

(** C10: with the dragged location at index [i] of its owning table's
    [Locations] and a drop index in range, the drop leaves the list with
    the location removed from [i] and reinserted at the drop index, or
    at one less when [i] is below the drop index.  The new list is a
    permutation of the old one, and the other locations keep their
    relative order: taking the dragged location out of the new list
    gives what taking it out of the old one gives. *)
Theorem dataDragDrop_reorders
    (d : bodySettingsDockable) (data : option DragValue)
    (dd : hitLocationSettingsPanel) (table : nat) (ls : list nat) (i : nat) :
  inDragOver d = true →
  ownPanel d data = Some dd →
  OwningTable d !! loc dd = Some table →
  Locations d !! table = Some ls →
  ls !! i = Some (loc dd) →
  loc dd ∉ take i ls →
  0 ≤ dragInsert d ≤ Z.of_nat (length ls) →
  let j := Z.to_nat (if bool_decide (Z.of_nat i < dragInsert d)
                     then dragInsert d - 1 else dragInsert d) in
  let ls' := take j (delete i ls) ++ loc dd :: drop j (delete i ls) in
  ∃ d', dataDragDrop data d = Some d'
        ∧ Locations d' !! table = Some ls'
        ∧ ls' ≡ₚ ls
        ∧ delete j ls' = delete i ls
        ∧ ls' !! j = Some (loc dd).
Proof.
  intros Hover Hown Htable Hls Hi Hfirst Hrange j ls'.
  pose proof (lookup_lt_Some _ _ _ Hi) as Hlt.
  pose proof (dropIndex_in_range i (dragInsert d) (length ls) Hlt Hrange) as Hj.
  pose proof (take_drop_middle _ _ _ Hi) as Hsplit.
  assert (length (delete i ls) = (length ls - 1)%nat) as Hlen
    by (by rewrite length_delete by eauto).
  assert (j ≤ length (delete i ls))%nat as Hjlen by (subst j; lia).
  eexists. split.
  { rewrite (dataDragDrop_at d data dd table ls i) by (done || lia).
    replace (if bool_decide (Z.of_nat i < dragInsert d)
             then dragInsert d - 1 else dragInsert d) with (Z.of_nat j)
      by (subst j; lia).
    by rewrite Insert_in_range. }
  split; [by cbn; rewrite lookup_insert_eq|].
  assert (length (take j (delete i ls)) = j) as Htake
    by (rewrite length_take; lia).
  split; [|split].
  - subst ls'. rewrite <- Permutation_middle, take_drop.
    transitivity (take i ls ++ loc dd :: drop (S i) ls); [|by rewrite Hsplit].
    by rewrite <- Permutation_middle, delete_take_drop.
  - subst ls'. rewrite <- Htake at 1. by rewrite delete_middle, take_drop.
  - subst ls'. rewrite <- Htake at 1. apply list_lookup_middle. done.
Qed.

(** C3, as stated, fails: dragging location 1 from index 0 of the sample
    table to drop index 2 succeeds, and the location ends up at index 1,
    not at index 2. *)
Lemma drop_below_lands_one_earlier :
  ∃ d', dataDragDrop sampleDrag sampleDockable = Some d'
        ∧ dragInsert sampleDockable = 2
        ∧ Locations sampleDockable !! 10%nat = Some [1%nat; 2%nat; 3%nat]
        ∧ Locations d' !! 10%nat = Some [2%nat; 1%nat; 3%nat]
        ∧ slices.Index [2%nat; 1%nat; 3%nat] 1%nat = 1.
Proof.
  eexists. split; [vm_compute; reflexivity|].
  repeat split; vm_compute; reflexivity.
Qed.

(** C3, amended: the drop handler walks no ancestry and has no
    self-parenting failure; it moves the dragged location inside its own
    owning table and touches no other table.  With the location at
    index [i] and a drop index [k >= 0]: when [k] is at most the length
    of the list, the drop succeeds and the location ends up at index [k]
    if [k <= i] and at index [k - 1] if [i < k]; when [k] is beyond the
    length, nothing is clamped and the handler panics. *)
Theorem dataDragDrop_moves_within_owning_table
    (d : bodySettingsDockable) (data : option DragValue)
    (dd : hitLocationSettingsPanel) (table : nat) (ls : list nat) (i : nat) :
  inDragOver d = true →
  ownPanel d data = Some dd →
  OwningTable d !! loc dd = Some table →
  Locations d !! table = Some ls →
  ls !! i = Some (loc dd) →
  loc dd ∉ take i ls →
  0 ≤ dragInsert d →
  if bool_decide (dragInsert d ≤ Z.of_nat (length ls))
  then ∃ d' ls',
         dataDragDrop data d = Some d'
         ∧ OwningTable d' = OwningTable d
         ∧ (∀ t, t ≠ table → Locations d' !! t = Locations d !! t)
         ∧ Locations d' !! table = Some ls'
         ∧ length ls' = length ls
         ∧ ls' !! Z.to_nat (if bool_decide (Z.of_nat i < dragInsert d)
                            then dragInsert d - 1 else dragInsert d)
           = Some (loc dd)
  else dataDragDrop data d = None.
Proof.
  intros Hover Hown Htable Hls Hi Hfirst Hk.
  pose proof (lookup_lt_Some _ _ _ Hi) as Hlt.
  assert (length (delete i ls) = (length ls - 1)%nat) as Hlen
    by (by rewrite length_delete by eauto).
  rewrite (dataDragDrop_at d data dd table ls i) by done.
  case_bool_decide as Hrange.
  - pose proof (dropIndex_in_range i (dragInsert d) (length ls) Hlt
                  (conj Hk Hrange)) as Hj.
    set (j := if bool_decide (Z.of_nat i < dragInsert d)
              then dragInsert d - 1 else dragInsert d) in *.
    replace (slices.Insert (delete i ls) j (loc dd))
      with (slices.Insert (delete i ls) (Z.of_nat (Z.to_nat j)) (loc dd))
      by (by rewrite Z2Nat.id by lia).
    rewrite Insert_in_range by lia. cbn [mbind option_bind].
    eexists _, _. split; [done|]. split; [done|].
    split; [by intros t Ht; cbn; rewrite lookup_insert_ne|].
    split; [by cbn; rewrite lookup_insert_eq|].
    assert (length (take (Z.to_nat j) (delete i ls)) = Z.to_nat j) as Htake
      by (rewrite length_take; lia).
    split.
    + rewrite length_app, length_cons, length_take, length_drop. lia.
    + rewrite <- Htake at 1. by apply list_lookup_middle.
  - rewrite bool_decide_eq_true_2 by lia.
    by rewrite Insert_out_of_range by lia.
Qed.

(** ** The callbacks keep the tree invariant

    The hypotheses of C1 and C5 (distinct children that point back to
    their list) hold in every state the callbacks reach from a
    well-formed tree. *)
Section Invariant.
Implicit Types (h : gmap nat PrereqObj) (p : prereqPanel) (c n L P : nat).

Lemma ParentList_allocated h c L : ParentList h c = Some L → is_Some (h !! c).
Proof. unfold ParentList. destruct (h !! c); [eauto|done]. Qed.

Lemma ParentList_insert_ne h c o n :
  c ≠ n → ParentList (<[c := o]> h) n = ParentList h n.
Proof. intros Hne. unfold ParentList. by rewrite lookup_insert_ne. Qed.

Lemma wellFormed_children h L c :
  wellFormed h → c ∈ PrereqsOf h L → ParentList h c = Some L.
Proof.
  intros Hwf Hc. unfold PrereqsOf in Hc.
  destruct (h !! L) as [o|] eqn:HL; simpl in Hc.
  - by apply (Hwf L o).
  - by apply not_elem_of_nil in Hc.
Qed.

Lemma wellFormed_NoDup h L : wellFormed h → NoDup (PrereqsOf h L).
Proof.
  intros Hwf. unfold PrereqsOf. destruct (h !! L) as [o|] eqn:HL; simpl.
  - by apply (Hwf L o).
  - constructor.
Qed.

Lemma PrereqsOf_insert_childless h c o P n :
  Prereqs o = [] → n ∉ PrereqsOf h P → n ∉ PrereqsOf (<[c := o]> h) P.
Proof.
  intros Hnil Hn. destruct (decide (c = P)) as [<-|Hne].
  - unfold PrereqsOf. rewrite lookup_insert_eq. simpl. rewrite Hnil.
    apply not_elem_of_nil.
  - by rewrite PrereqsOf_insert_ne.
Qed.

(** Allocating a childless object keeps the invariant. *)
Lemma wellFormed_alloc h c o :
  wellFormed h → h !! c = None → Prereqs o = [] → wellFormed (<[c := o]> h).
Proof.
  intros Hwf Hc Hnil L o' HL.
  destruct (decide (c = L)) as [->|Hne].
  - rewrite lookup_insert_eq in HL. injection HL as <-. rewrite Hnil.
    split; [constructor|]. intros x Hx. by apply not_elem_of_nil in Hx.
  - rewrite lookup_insert_ne in HL by done.
    destruct (Hwf L o' HL) as [Hnd Hback]. split; [done|].
    intros x Hx. rewrite ParentList_insert_ne; [by apply Hback|].
    intros <-. apply Hback, ParentList_allocated in Hx as [? ?]. congruence.
Qed.

(** Giving a list distinct children that point back to it keeps the
    invariant. *)
Lemma wellFormed_setPrereqs h P ps :
  wellFormed h → NoDup ps → (∀ c, c ∈ ps → ParentList h c = Some P) →
  wellFormed (setPrereqs h P ps).
Proof.
  intros Hwf Hnd Hback L o' HL. unfold setPrereqs in HL.
  destruct (decide (P = L)) as [->|Hne].
  - rewrite lookup_alter_eq in HL. destruct (h !! L) as [o|]; [|done].
    injection HL as <-. simpl. split; [done|].
    intros c Hc. rewrite ParentList_setPrereqs. by apply Hback.
  - rewrite lookup_alter_ne in HL by done.
    destruct (Hwf L o' HL) as [Hnd' Hback']. split; [done|].
    intros c Hc. rewrite ParentList_setPrereqs. by apply Hback'.
Qed.

(** A list of a well-formed tree with one child replaced by, or one
    child added as, a freshly allocated node. *)
Lemma wellFormed_fresh_child h P o (l1 l2 : list nat) c :
  wellFormed h → h !! c = None → Prereqs o = [] → Parent o = Some P →
  NoDup (l1 ++ l2) → (∀ x, x ∈ l1 ++ l2 → ParentList h x = Some P) →
  wellFormed (setPrereqs (<[c := o]> h) P (l1 ++ c :: l2)).
Proof.
  intros Hwf Hc Hnil Hparent Hnd Hback.
  assert (c ∉ l1 ++ l2) as Hfresh.
  { intros Hin. apply Hback, ParentList_allocated in Hin as [? ?]. congruence. }
  apply wellFormed_setPrereqs; [by apply wellFormed_alloc| |].
  - apply NoDup_app in Hnd as (Hnd1 & Hdisj & Hnd2).
    rewrite elem_of_app in Hfresh.
    apply NoDup_app. split; [done|]. split.
    + intros x Hx. rewrite elem_of_cons. intros [->|Hx2]; [tauto|].
      by apply (Hdisj x).
    + apply NoDup_cons. split; [tauto|done].
  - intros x Hx. destruct (decide (c = x)) as [<-|Hne].
    + unfold ParentList. by rewrite lookup_insert_eq.
    + rewrite ParentList_insert_ne by done. apply Hback.
      rewrite elem_of_app, elem_of_cons in Hx. rewrite elem_of_app.
      destruct Hx as [?|[->|?]]; [tauto|done|tauto].
Qed.

Lemma addPrereqButtonClick_wellFormed p L p' :
  wellFormed (heap p) → is_Some (heap p !! L) →
  addPrereqButtonClick L p = Some p' → wellFormed (heap p').
Proof.
  intros Hwf HL Hclick.
  destruct (knownPrereqType (lastPrereqTypeUsed p)) eqn:Hknown.
  - rewrite addPrereqButtonClick_known in Hclick by done.
    injection Hclick as <-. cbn [heap MarkModified].
    rewrite adjustAndOrForList_heap. cbn [heap addAndOr withAndOrMap withHeap].
    apply (wellFormed_fresh_child (heap p) L _ [] (PrereqsOf (heap p) L));
      [done|apply fresh_unallocated|done|done| |].
    + by apply wellFormed_NoDup.
    + intros x Hx. by apply wellFormed_children.
  - rewrite addPrereqButtonClick_unknown in Hclick by done.
    by injection Hclick as <-.
Qed.

Lemma deleteButtonClick_wellFormed p n P p' :
  wellFormed (heap p) →
  deleteButtonClick n P p = Some p' → wellFormed (heap p').
Proof.
  intros Hwf Hclick.
  destruct (decide (n ∈ PrereqsOf (heap p) P)) as [Hin|Hnin].
  - apply list_elem_of_split_l in Hin as (l1 & l2 & Hps & Hn).
    rewrite (deleteButtonClick_found p n P l1 l2) in Hclick by done.
    injection Hclick as <-. cbn [heap MarkModified].
    rewrite adjustAndOrForList_heap. cbn [heap withHeap withAndOrMap].
    pose proof (wellFormed_NoDup (heap p) P Hwf) as Hnd. rewrite Hps in Hnd.
    apply wellFormed_setPrereqs; [done| |].
    + apply NoDup_app in Hnd as (Hnd1 & Hdisj & Hnd2).
      apply NoDup_cons in Hnd2 as [_ Hnd2].
      apply NoDup_app. split; [done|]. split; [|done].
      intros x Hx Hx2. apply (Hdisj x Hx). rewrite elem_of_cons. tauto.
    + intros c Hc. apply wellFormed_children; [done|]. rewrite Hps.
      rewrite elem_of_app in Hc. rewrite elem_of_app, elem_of_cons. tauto.
  - rewrite deleteButtonClick_absent in Hclick by done.
    injection Hclick as <-. cbn [heap MarkModified].
    by rewrite adjustAndOrForList_heap.
Qed.

Lemma typeSwitcherSelectionChanged_wellFormed p n selected p' :
  wellFormed (heap p) →
  typeSwitcherSelectionChanged n selected p = Some p' → wellFormed (heap p').
Proof.
  intros Hwf Hsel. destruct selected as [item|]; [|by injection Hsel as <-].
  destruct (knownPrereqType item) eqn:Hitem.
  - destruct (ParentList (heap p) n) as [P|] eqn:HP.
    + destruct (decide (n ∈ PrereqsOf (heap p) P)) as [Hin|Hnin].
      * apply list_elem_of_split_l in Hin as (l1 & l2 & Hps & Hn).
        rewrite (typeSwitcherSelectionChanged_known p n P item l1 l2) in Hsel
          by done.
        injection Hsel as <-.
        cbn [heap MarkModified addAndOr withAndOrMap withHeap
             withLastPrereqTypeUsed].
        pose proof (wellFormed_NoDup (heap p) P Hwf) as Hnd. rewrite Hps in Hnd.
        apply wellFormed_fresh_child; [done|apply fresh_unallocated|done|done| |].
        -- apply NoDup_app in Hnd as (Hnd1 & Hdisj & Hnd2).
           apply NoDup_cons in Hnd2 as [_ Hnd2].
           apply NoDup_app. split; [done|]. split; [|done].
           intros x Hx Hx2. apply (Hdisj x Hx). rewrite elem_of_cons. tauto.
        -- intros x Hx. apply wellFormed_children; [done|]. rewrite Hps.
           rewrite elem_of_app in Hx. rewrite elem_of_app, elem_of_cons. tauto.
      * exfalso. unfold typeSwitcherSelectionChanged in Hsel. rewrite HP in Hsel.
        rewrite createPrereqForType_known in Hsel by done.
        cbn [mbind option_bind heap withHeap withLastPrereqTypeUsed] in Hsel.
        rewrite IndexFunc_absent in Hsel
          by (by apply PrereqsOf_insert_childless).
        by rewrite bool_decide_eq_false_2 in Hsel by lia.
    + exfalso. unfold typeSwitcherSelectionChanged in Hsel. rewrite HP in Hsel.
      by rewrite createPrereqForType_known in Hsel by done.
  - rewrite typeSwitcherSelectionChanged_unknown in Hsel by done.
    by injection Hsel as <-.
Qed.

(** The sample tree satisfies the invariant. *)
Lemma sampleHeap_wellFormed : wellFormed sampleHeap.
Proof.
  intros L o HL. unfold sampleHeap in HL.
  repeat (rewrite lookup_insert in HL; case_decide; subst;
          [injection HL as <-; simpl|]).
  - split; [apply (bool_decide_unpack _); vm_compute; exact I|].
    intros c Hc. rewrite !elem_of_cons in Hc.
    destruct Hc as [->|[->|Hc]]; [done|done|by apply not_elem_of_nil in Hc].
  - split; [constructor|]. intros c Hc. by apply not_elem_of_nil in Hc.
  - split; [constructor|]. intros c Hc. by apply not_elem_of_nil in Hc.
  - by rewrite lookup_empty in HL.
Qed.
End Invariant.

(** * The theorems at the sample states *)

Lemma failed_check_leaves_tree_witness :
  (∃ p', deleteButtonClick 5 0 strayTypePanel = Some p'
         ∧ heap p' = heap strayTypePanel
         ∧ andOrMap p' !! 5%nat = None
         ∧ (∀ k, k ≠ 5%nat →
              andOrMap p' !! k
              = if decide (k ∈ PrereqsOf (heap strayTypePanel) 0)
                then relabel (heap strayTypePanel) k (andOrMap strayTypePanel !! k)
                else andOrMap strayTypePanel !! k)
         ∧ lastPrereqTypeUsed p' = lastPrereqTypeUsed strayTypePanel
         ∧ modified p' = S (modified strayTypePanel))
  ∧ (∃ p', addPrereqButtonClick 0 strayTypePanel = Some p'
           ∧ heap p' = heap strayTypePanel
           ∧ andOrMap p' = andOrMap strayTypePanel
           ∧ lastPrereqTypeUsed p' = lastPrereqTypeUsed strayTypePanel
           ∧ modified p' = modified strayTypePanel)
  ∧ (∃ p', typeSwitcherSelectionChanged 5 (Some (OtherPrereqType 9)) strayTypePanel
           = Some p'
           ∧ heap p' = heap strayTypePanel
           ∧ andOrMap p' = andOrMap strayTypePanel
           ∧ lastPrereqTypeUsed p' = lastPrereqTypeUsed strayTypePanel
           ∧ modified p' = modified strayTypePanel).
Proof.
  destruct (failed_check_leaves_tree strayTypePanel 5 0 (OtherPrereqType 9))
    as (Hdelete & Hadd & Hswitch).
  split; [|split].
  - apply Hdelete. apply (bool_decide_unpack _). vm_compute. exact I.
  - apply Hadd. reflexivity.
  - apply Hswitch. reflexivity.
Defined.

Lemma deleteButton_root_none_child_removed_witness :
  deleteButton (createButtonsPanel (heap samplePanel) 0) = None
  ∧ ∃ click p',
      deleteButton (createButtonsPanel (heap samplePanel) 2) = Some click
      ∧ click samplePanel = Some p'
      ∧ PrereqsOf (heap p') 0 = [1%nat] ++ []
      ∧ (2%nat ∉ @nil nat → 2%nat ∉ PrereqsOf (heap p') 0)
      ∧ (∀ k, k ≠ 0%nat → heap p' !! k = heap samplePanel !! k)
      ∧ andOrMap p' !! 2%nat = None.
Proof.
  split.
  - apply (proj1 (deleteButton_root_none_child_removed samplePanel 0)).
    reflexivity.
  - apply (proj2 (deleteButton_root_none_child_removed samplePanel 2) 0%nat [1%nat] []).
    + reflexivity.
    + reflexivity.
    + apply (bool_decide_unpack _). vm_compute. exact I.
Defined.

Lemma typeSwitcher_replaces_in_place_witness :
  ∃ created p',
    typeSwitcherSelectionChanged 2 (Some SkillPrereqType) samplePanel = Some p'
    ∧ heap samplePanel !! created = None
    ∧ heap p' !! created
      = Some (mkPrereq SkillPrereqType (Some 0%nat)
                       (bool_decide (SkillPrereqType = ListPrereqType)) [])
    ∧ PrereqsOf (heap p') 0 = <[1%nat := created]> (PrereqsOf (heap samplePanel) 0)
    ∧ PrereqsOf (heap p') 0 !! 1%nat = Some created
    ∧ (∀ j, j ≠ 1%nat →
         PrereqsOf (heap p') 0 !! j = PrereqsOf (heap samplePanel) 0 !! j)
    ∧ lastPrereqTypeUsed p' = SkillPrereqType.
Proof.
  apply (typeSwitcher_replaces_in_place samplePanel 2 0 SkillPrereqType 1).
  - reflexivity.
  - reflexivity.
  - apply (bool_decide_unpack (NoDup _)). vm_compute. exact I.
  - reflexivity.
Defined.

Lemma addPrereqButtonClick_inserts_first_witness :
  initialLastPrereqTypeUsed = TraitPrereqType
  ∧ ∃ created p',
      addPrereqButtonClick 0 samplePanel = Some p'
      ∧ heap samplePanel !! created = None
      ∧ heap p' !! created
        = Some (mkPrereq (lastPrereqTypeUsed samplePanel) (Some 0%nat)
                  (bool_decide (lastPrereqTypeUsed samplePanel = ListPrereqType)) [])
      ∧ PrereqsOf (heap p') 0 !! 0%nat = Some created
      ∧ (∀ i, PrereqsOf (heap p') 0 !! S i = PrereqsOf (heap samplePanel) 0 !! i)
      ∧ modified p' = S (modified samplePanel)
      ∧ ∃ second p'',
          addPrereqButtonClick 0 p' = Some p''
          ∧ second ≠ created
          ∧ PrereqsOf (heap p'') 0
            = second :: created :: PrereqsOf (heap samplePanel) 0.
Proof.
  apply (addPrereqButtonClick_inserts_first samplePanel 0).
  - exists (mkPrereq ListPrereqType None true [1%nat; 2%nat]). reflexivity.
  - reflexivity.
Defined.

Lemma Insert_then_delete_restores_witness :
  ∃ ps p',
    slices.Insert (PrereqsOf (heap samplePanel) 0) (Z.of_nat 1) 5%nat = Some ps
    ∧ ps !! 1%nat = Some 5%nat
    ∧ deleteButtonClick 5 0 (withHeap samplePanel (setPrereqs (heap samplePanel) 0 ps))
      = Some p'
    ∧ PrereqsOf (heap p') 0 = PrereqsOf (heap samplePanel) 0
    ∧ heap p' = heap samplePanel.
Proof.
  apply (Insert_then_delete_restores samplePanel 0 5 1).
  - exists (mkPrereq ListPrereqType None true [1%nat; 2%nat]). reflexivity.
  - apply (bool_decide_unpack _). vm_compute. exact I.
  - vm_compute. lia.
Defined.

Lemma addPrereqButtonClick_unknown_type_noop_witness :
  fst (createPrereqForType (lastPrereqTypeUsed strayTypePanel) (Some 0%nat)
         strayTypePanel) = None
  ∧ warnings (snd (createPrereqForType (lastPrereqTypeUsed strayTypePanel)
                     (Some 0%nat) strayTypePanel))
    = warnings strayTypePanel
      ++ [UnknownPrereqTypeWarning (lastPrereqTypeUsed strayTypePanel)]
  ∧ ∃ p', addPrereqButtonClick 0 strayTypePanel = Some p'
          ∧ heap p' = heap strayTypePanel
          ∧ PrereqsOf (heap p') 0 = PrereqsOf (heap strayTypePanel) 0
          ∧ andOrMap p' = andOrMap strayTypePanel
          ∧ modified p' = modified strayTypePanel
          ∧ lastPrereqTypeUsed p' = lastPrereqTypeUsed strayTypePanel.
Proof.
  apply (addPrereqButtonClick_unknown_type_noop strayTypePanel 0). reflexivity.
Defined.

Lemma dataDragDrop_reorders_witness :
  ∃ d', dataDragDrop sampleDrag sampleDockable = Some d'
        ∧ Locations d' !! 10%nat = Some [2%nat; 1%nat; 3%nat]
        ∧ [2%nat; 1%nat; 3%nat] ≡ₚ [1%nat; 2%nat; 3%nat]
        ∧ delete 1%nat [2%nat; 1%nat; 3%nat] = delete 0%nat [1%nat; 2%nat; 3%nat]
        ∧ [2%nat; 1%nat; 3%nat] !! 1%nat = Some 1%nat.
Proof.
  apply (dataDragDrop_reorders sampleDockable sampleDrag
           (mkHitLocationPanel 7 1) 10 [1%nat; 2%nat; 3%nat] 0).
  - reflexivity.
  - reflexivity.
  - reflexivity.
  - reflexivity.
  - reflexivity.
  - apply (bool_decide_unpack _). vm_compute. exact I.
  - vm_compute. split; discriminate.
Defined.

Lemma dataDragDrop_moves_within_owning_table_witness :
  ∃ d' ls',
    dataDragDrop sampleDrag sampleDockable = Some d'
    ∧ OwningTable d' = OwningTable sampleDockable
    ∧ (∀ t, t ≠ 10%nat → Locations d' !! t = Locations sampleDockable !! t)
    ∧ Locations d' !! 10%nat = Some ls'
    ∧ length ls' = 3%nat
    ∧ ls' !! 1%nat = Some 1%nat.
Proof.
  apply (dataDragDrop_moves_within_owning_table sampleDockable sampleDrag
           (mkHitLocationPanel 7 1) 10 [1%nat; 2%nat; 3%nat] 0).
  - reflexivity.
  - reflexivity.
  - reflexivity.
  - reflexivity.
  - reflexivity.
  - apply (bool_decide_unpack _). vm_compute. exact I.
  - vm_compute. discriminate.
Defined.

(** * Further properties of the prerequisite panel *)

(** ** Panics *)

Lemma deleteButtonClick_total (n P : nat) (p : prereqPanel) :
  is_Some (deleteButtonClick n P p).
Proof.
  destruct (decide (n ∈ PrereqsOf (heap p) P)) as [Hin|Hnin].
  - apply list_elem_of_split_l in Hin as (l1 & l2 & Hps & Hn).
    rewrite (deleteButtonClick_found p n P l1 l2) by done. by eexists.
  - rewrite deleteButtonClick_absent by done. by eexists.
Qed.

Lemma addPrereqButtonClick_total (L : nat) (p : prereqPanel) :
  is_Some (addPrereqButtonClick L p).
Proof.
  destruct (knownPrereqType (lastPrereqTypeUsed p)) eqn:Hknown.
  - unfold addPrereqButtonClick. rewrite createPrereqForType_known by done.
    rewrite Insert_front. cbn [mbind option_bind]. by eexists.
  - rewrite addPrereqButtonClick_unknown by done. by eexists.
Qed.

Lemma addPrereqListButtonClick_total (L : nat) (p : prereqPanel) :
  is_Some (addPrereqListButtonClick L p).
Proof.
  unfold addPrereqListButtonClick, allocWithParent. cbn [mbind option_bind].
  rewrite Insert_front. cbn [mbind option_bind]. by eexists.
Qed.

(** X1: The three button callbacks never panic, whatever the state: the
    insertion index 0 is always in range, and the deletion runs only at
    an index [IndexFunc] found. *)
Theorem button_clicks_never_panic (n P L : nat) (p : prereqPanel) :
  is_Some (addPrereqButtonClick L p)
  ∧ is_Some (addPrereqListButtonClick L p)
  ∧ is_Some (deleteButtonClick n P p).
Proof.
  split; [apply addPrereqButtonClick_total|].
  split; [apply addPrereqListButtonClick_total|apply deleteButtonClick_total].
Qed.

(** X2: The type switcher panics exactly when a node of a known type was
    created and then the node to replace has no parent list (nil
    dereference) or is not among its parent's children (index -1). *)
Theorem typeSwitcher_panics_iff
    (n : nat) (selected : option PrereqType) (p : prereqPanel) :
  typeSwitcherSelectionChanged n selected p = None
  ↔ ∃ item, selected = Some item ∧ knownPrereqType item = true
            ∧ (ParentList (heap p) n = None
               ∨ ∃ P, ParentList (heap p) n = Some P
                      ∧ n ∉ PrereqsOf (heap p) P).
Proof.
  destruct selected as [item|]; [|split; [done|by intros (? & ? & _)]].
  destruct (knownPrereqType item) eqn:Hitem.
  - destruct (ParentList (heap p) n) as [P|] eqn:HP.
    + destruct (decide (n ∈ PrereqsOf (heap p) P)) as [Hin|Hnin].
      * apply list_elem_of_split_l in Hin as (l1 & l2 & Hps & Hn).
        rewrite (typeSwitcherSelectionChanged_known p n P item l1 l2) by done.
        split; [done|]. intros (item' & _ & _ & [?|(P' & [= <-] & Hnin)]); [done|].
        exfalso. apply Hnin. rewrite Hps, elem_of_app, elem_of_cons. tauto.
      * split; [intros _; exists item; eauto 10|intros _].
        unfold typeSwitcherSelectionChanged. rewrite HP.
        rewrite createPrereqForType_known by done.
        cbn [mbind option_bind heap withHeap withLastPrereqTypeUsed].
        rewrite IndexFunc_absent by (by apply PrereqsOf_insert_childless).
        by rewrite bool_decide_eq_false_2 by lia.
    + split; [intros _; exists item; eauto|intros _].
      unfold typeSwitcherSelectionChanged. rewrite HP.
      by rewrite createPrereqForType_known by done.
  - rewrite typeSwitcherSelectionChanged_unknown by done.
    split; [done|]. intros (item' & [= <-] & Hknown & _). congruence.
Qed.

(** ** Labels stay right *)
Section LabelInvariant.
Implicit Types (h : gmap nat PrereqObj) (p q : prereqPanel) (c n L P : nat).

(** The connective of a node depends on its parent pointer and on the
    children and the flag of that parent, on nothing else. *)
Lemma andOrText_ext h h' c :
  ParentList h' c = ParentList h c →
  (∀ P, ParentList h c = Some P →
        PrereqsOf h' P = PrereqsOf h P ∧ AllOf h' P = AllOf h P) →
  andOrText h' c = andOrText h c.
Proof.
  intros Hp Hsame. unfold andOrText. rewrite Hp.
  destruct (ParentList h c) as [P|]; [|done].
  by destruct (Hsame P eq_refl) as [-> ->].
Qed.

Lemma AllOf_insert_ne h c o L : c ≠ L → AllOf (<[c := o]> h) L = AllOf h L.
Proof. intros Hne. unfold AllOf. by rewrite lookup_insert_ne. Qed.

Lemma AllOf_setAll_ne h L b P : L ≠ P → AllOf (setAll h L b) P = AllOf h P.
Proof. intros Hne. unfold AllOf, setAll. by rewrite lookup_alter_ne. Qed.

Lemma allLabelsRight_labelsRight p : allLabelsRight p → labelsRight p.
Proof. intros Hall P c label _. apply Hall. Qed.

(** After a refresh of [L] the labels are right everywhere, provided
    they were right for the children of the other lists. *)
Lemma refresh_labelsRight q L :
  (∀ P c label, P ≠ L → c ∈ PrereqsOf (heap q) P →
     andOrMap q !! c = Some label → Text label = andOrText (heap q) c) →
  labelsRight (adjustAndOrForList L q).
Proof.
  intros Hother P c label. rewrite adjustAndOrForList_heap.
  rewrite adjustAndOrForList_lookup. intros Hc. case_decide as HcL.
  - unfold relabel. destruct (andOrMap q !! c); [|done]. by intros [= <-].
  - apply (Hother P); [|done]. by intros ->.
Qed.

(** Children of the lists other than [L], across an allocation and a
    rewrite of [L.Prereqs]. *)
Lemma other_children_alloc h cr obj L ps P c :
  wellFormed h → h !! cr = None → Prereqs obj = [] → P ≠ L →
  c ∈ PrereqsOf (setPrereqs (<[cr := obj]> h) L ps) P →
  c ∈ PrereqsOf h P ∧ c ≠ cr
  ∧ andOrText (setPrereqs (<[cr := obj]> h) L ps) c = andOrText h c.
Proof.
  intros Hwf Hcr Hnil HPL Hc.
  rewrite PrereqsOf_setPrereqs_ne in Hc by done.
  destruct (decide (cr = P)) as [<-|HcrP].
  { exfalso. unfold PrereqsOf in Hc. rewrite lookup_insert_eq in Hc.
    simpl in Hc. rewrite Hnil in Hc. by apply not_elem_of_nil in Hc. }
  rewrite PrereqsOf_insert_ne in Hc by done.
  pose proof (wellFormed_children h P c Hwf Hc) as Hparent.
  assert (cr ≠ c) as Hne.
  { intros <-. apply ParentList_allocated in Hparent as [? ?]. congruence. }
  split; [done|]. split; [done|].
  apply andOrText_ext.
  - by rewrite ParentList_setPrereqs, ParentList_insert_ne.
  - intros P' HP'. rewrite Hparent in HP'. injection HP' as <-.
    rewrite PrereqsOf_setPrereqs_ne, PrereqsOf_insert_ne by done.
    by rewrite AllOf_setPrereqs, AllOf_insert_ne.
Qed.

Lemma other_children_setPrereqs h L ps P c :
  wellFormed h → P ≠ L → c ∈ PrereqsOf (setPrereqs h L ps) P →
  c ∈ PrereqsOf h P ∧ andOrText (setPrereqs h L ps) c = andOrText h c.
Proof.
  intros Hwf HPL Hc. rewrite PrereqsOf_setPrereqs_ne in Hc by done.
  pose proof (wellFormed_children h P c Hwf Hc) as Hparent.
  split; [done|]. apply andOrText_ext.
  - by rewrite ParentList_setPrereqs.
  - intros P' HP'. rewrite Hparent in HP'. injection HP' as <-.
    by rewrite PrereqsOf_setPrereqs_ne, AllOf_setPrereqs.
Qed.

Lemma other_children_setAll h L b P c :
  wellFormed h → P ≠ L → c ∈ PrereqsOf (setAll h L b) P →
  c ∈ PrereqsOf h P ∧ andOrText (setAll h L b) c = andOrText h c.
Proof.
  intros Hwf HPL Hc. rewrite PrereqsOf_setAll in Hc.
  pose proof (wellFormed_children h P c Hwf Hc) as Hparent.
  split; [done|]. apply andOrText_ext.
  - by rewrite ParentList_setAll.
  - intros P' HP'. rewrite Hparent in HP'. injection HP' as <-.
    by rewrite PrereqsOf_setAll, AllOf_setAll_ne.
Qed.

Lemma wellFormed_setAll h L b : wellFormed h → wellFormed (setAll h L b).
Proof.
  intros Hwf P o' HP. unfold setAll in HP.
  destruct (decide (L = P)) as [->|Hne].
  - rewrite lookup_alter_eq in HP. destruct (h !! P) as [o|] eqn:Ho; [|done].
    injection HP as <-. simpl. destruct (Hwf P o Ho) as [Hnd Hback].
    split; [done|]. intros c Hc. rewrite ParentList_setAll. by apply Hback.
  - rewrite lookup_alter_ne in HP by done.
    destruct (Hwf P o' HP) as [Hnd Hback]. split; [done|].
    intros c Hc. rewrite ParentList_setAll. by apply Hback.
Qed.

(** Labels after a click on one of the add buttons, for a fresh object
    [obj] put in front of the children of [L]. *)
Lemma add_labelsRight p L obj :
  wellFormed (heap p) → labelsRight p → Prereqs obj = [] →
  labelsRight
    (MarkModified (adjustAndOrForList L (addAndOr (fresh (dom (heap p)))
       (withHeap p
          (setPrereqs (<[fresh (dom (heap p)) := obj]> (heap p)) L
             (fresh (dom (heap p)) :: PrereqsOf (heap p) L)))))).
Proof.
  intros Hwf Hright Hnil.
  set (cr := fresh (dom (heap p))).
  set (q := addAndOr cr _).
  intros P c label. cbn [heap andOrMap MarkModified]. revert P c label.
  apply refresh_labelsRight. intros P c label HPL Hc Hlabel.
  subst q. cbn [heap andOrMap addAndOr withAndOrMap withHeap] in *.
  destruct (other_children_alloc (heap p) cr obj L _ P c Hwf
              (fresh_unallocated p) Hnil HPL Hc) as (Hc' & Hne & ->).
  rewrite lookup_insert_ne in Hlabel by done.
  by apply (Hright P).
Qed.
End LabelInvariant.

Lemma addPrereqListButtonClick_allocated (p : prereqPanel) (L : nat) :
  is_Some (heap p !! L) →
  addPrereqListButtonClick L p
  = Some (MarkModified (adjustAndOrForList L (addAndOr (fresh (dom (heap p)))
      (withHeap p
         (setPrereqs
            (<[fresh (dom (heap p)) := mkPrereq ListPrereqType (Some L) true []]>
             (heap p))
            L (fresh (dom (heap p)) :: PrereqsOf (heap p) L)))))).
Proof.
  intros HL. pose proof (fresh_ne_allocated p L HL) as Hne.
  unfold addPrereqListButtonClick, allocWithParent.
  cbn [mbind option_bind heap withHeap NewPrereqList prereqType All Prereqs].
  rewrite Insert_front. cbn [mbind option_bind].
  rewrite PrereqsOf_insert_ne by done.
  rewrite (addToList_childless _ _ _ (mkPrereq ListPrereqType (Some L) true []));
    [done| |done..].
  cbn [heap withHeap]. unfold setPrereqs.
  by rewrite lookup_alter_ne, lookup_insert_eq by done.
Qed.

(** X3: A click on the add button of an allocated list never panics and
    keeps the tree well-formed and the labels of all children right. *)
Theorem addPrereqButtonClick_keeps_invariants (p : prereqPanel) (L : nat) :
  wellFormed (heap p) → labelsRight p → is_Some (heap p !! L) →
  ∃ p', addPrereqButtonClick L p = Some p'
        ∧ wellFormed (heap p') ∧ labelsRight p'.
Proof.
  intros Hwf Hright HL.
  destruct (addPrereqButtonClick_total L p) as [p' Hclick].
  exists p'. split; [done|].
  split; [by apply (addPrereqButtonClick_wellFormed p L)|].
  destruct (knownPrereqType (lastPrereqTypeUsed p)) eqn:Hknown.
  - rewrite addPrereqButtonClick_known in Hclick by done.
    injection Hclick as <-. by apply add_labelsRight.
  - rewrite addPrereqButtonClick_unknown in Hclick by done.
    by injection Hclick as <-.
Qed.

(** X4: A click on the add-list button of an allocated list [L] never
    panics: it allocates an empty list with parent [L], puts it at
    position 0 of [L.Prereqs] in front of the former children, reports
    one modification, leaves the last-used type alone, and keeps the
    tree well-formed and the labels of all children right. *)
Theorem addPrereqListButtonClick_inserts_list (p : prereqPanel) (L : nat) :
  wellFormed (heap p) → labelsRight p → is_Some (heap p !! L) →
  ∃ newList p',
    addPrereqListButtonClick L p = Some p'
    ∧ heap p !! newList = None
    ∧ prereqType <$> heap p' !! newList = Some ListPrereqType
    ∧ ParentList (heap p') newList = Some L
    ∧ PrereqsOf (heap p') newList = []
    ∧ PrereqsOf (heap p') L = newList :: PrereqsOf (heap p) L
    ∧ andOrMap p' !! newList = Some (mkLabel noAndOr)
    ∧ modified p' = S (modified p)
    ∧ lastPrereqTypeUsed p' = lastPrereqTypeUsed p
    ∧ wellFormed (heap p') ∧ labelsRight p'.
Proof.
  intros Hwf Hright HL. pose proof (fresh_ne_allocated p L HL) as Hne.
  exists (fresh (dom (heap p))). eexists.
  split; [by apply addPrereqListButtonClick_allocated|].
  cbn [heap MarkModified andOrMap modified lastPrereqTypeUsed].
  rewrite adjustAndOrForList_heap, adjustAndOrForList_lookup.
  rewrite (adjustAndOrForList_frame L).
  cbn [heap andOrMap addAndOr withAndOrMap withHeap modified lastPrereqTypeUsed].
  pose proof (add_labelsRight p L (mkPrereq ListPrereqType (Some L) true [])
                Hwf Hright eq_refl) as Hright'.
  set (cr := fresh (dom (heap p))) in *.
  set (h' := setPrereqs _ L (cr :: PrereqsOf (heap p) L)) in *.
  assert (PrereqsOf h' L = cr :: PrereqsOf (heap p) L) as Hps.
  { apply PrereqsOf_setPrereqs_eq. by rewrite lookup_insert_ne. }
  assert (wellFormed h') as Hwf'.
  { apply (wellFormed_fresh_child (heap p) L _ [] (PrereqsOf (heap p) L));
      [done|apply fresh_unallocated|done|done| |].
    - by apply wellFormed_NoDup.
    - intros x Hx. by apply wellFormed_children. }
  assert (h' !! cr = Some (mkPrereq ListPrereqType (Some L) true [])) as Hcr.
  { subst h'. unfold setPrereqs.
    by rewrite lookup_alter_ne, lookup_insert_eq by done. }
  split; [apply fresh_unallocated|].
  split; [by rewrite Hcr|].
  split; [unfold ParentList; by rewrite Hcr|].
  split; [unfold PrereqsOf; by rewrite Hcr|].
  split; [done|].
  split.
  { rewrite Hps, decide_True by (apply elem_of_cons; by left).
    unfold relabel. rewrite lookup_insert_eq. simpl. f_equal. f_equal.
    apply (andOrText_first _ L); [unfold ParentList; by rewrite Hcr|].
    by rewrite Hps. }
  split; [done|]. split; [done|]. split; [done|].
  by rewrite <- adjustAndOrForList_frame.
Qed.

(** X5: A click on a delete button never panics and keeps the tree
    well-formed and the labels of all children right, whether or not the
    node is still among its parent's children. *)
Theorem deleteButtonClick_keeps_invariants (p : prereqPanel) (n P : nat) :
  wellFormed (heap p) → labelsRight p →
  ∃ p', deleteButtonClick n P p = Some p'
        ∧ wellFormed (heap p') ∧ labelsRight p'.
Proof.
  intros Hwf Hright.
  destruct (deleteButtonClick_total n P p) as [p' Hclick].
  exists p'. split; [done|].
  split; [by apply (deleteButtonClick_wellFormed p n P)|].
  destruct (decide (n ∈ PrereqsOf (heap p) P)) as [Hin|Hnin].
  - apply list_elem_of_split_l in Hin as (l1 & l2 & Hps & Hn).
    rewrite (deleteButtonClick_found p n P l1 l2) in Hclick by done.
    injection Hclick as <-.
    intros P' c label. cbn [heap andOrMap MarkModified]. revert P' c label.
    apply refresh_labelsRight. intros P' c label HPP Hc Hlabel.
    cbn [heap andOrMap withAndOrMap withHeap] in *.
    destruct (other_children_setPrereqs (heap p) P _ P' c Hwf HPP Hc)
      as (Hc' & ->).
    apply lookup_delete_Some in Hlabel as [_ Hlabel]. by apply (Hright P').
  - rewrite deleteButtonClick_absent in Hclick by done.
    injection Hclick as <-.
    intros P' c label. cbn [heap andOrMap MarkModified]. revert P' c label.
    apply refresh_labelsRight. intros P' c label HPP Hc Hlabel.
    cbn [heap andOrMap withAndOrMap] in *.
    apply lookup_delete_Some in Hlabel as [_ Hlabel]. by apply (Hright P').
Qed.

(** X6: Switching the type of a node that is among the children of its
    parent list, to one of the eight types, keeps the tree well-formed
    and the labels of all children right, although no refresh runs: the
    new node is labelled with its own connective, and the connectives of
    its siblings do not depend on which node stands at its position. *)
Theorem typeSwitcher_keeps_invariants
    (p : prereqPanel) (n P : nat) (item : PrereqType) :
  wellFormed (heap p) → labelsRight p →
  knownPrereqType item = true →
  ParentList (heap p) n = Some P → n ∈ PrereqsOf (heap p) P →
  ∃ p', typeSwitcherSelectionChanged n (Some item) p = Some p'
        ∧ wellFormed (heap p') ∧ labelsRight p'.
Proof.
  intros Hwf Hright Hitem HP Hin.
  apply list_elem_of_split_l in Hin as (l1 & l2 & Hps & Hn).
  pose proof (typeSwitcherSelectionChanged_known p n P item l1 l2 Hitem HP Hps Hn)
    as Hsel.
  eexists. split; [exact Hsel|].
  split; [by apply (typeSwitcherSelectionChanged_wellFormed p n (Some item))|].
  assert (is_Some (heap p !! P)) as HPalloc.
  { apply PrereqsOf_allocated. rewrite Hps. by destruct l1. }
  pose proof (fresh_ne_allocated p P HPalloc) as Hne.
  pose proof (wellFormed_NoDup (heap p) P Hwf) as Hnd. rewrite Hps in Hnd.
  set (cr := fresh (dom (heap p))) in *.
  set (obj := mkPrereq item (Some P) (bool_decide (item = ListPrereqType)) []).
  set (h' := setPrereqs (<[cr := obj]> (heap p)) P (l1 ++ cr :: l2)).
  assert (PrereqsOf h' P = l1 ++ cr :: l2) as Hps'.
  { apply PrereqsOf_setPrereqs_eq. by rewrite lookup_insert_ne. }
  intros P' c label.
  cbn [heap andOrMap MarkModified addAndOr withAndOrMap withHeap
       withLastPrereqTypeUsed].
  fold cr obj h'. intros Hc Hlabel.
  destruct (decide (cr = c)) as [<-|Hcrc].
  { rewrite lookup_insert_eq in Hlabel. by injection Hlabel as <-. }
  rewrite lookup_insert_ne in Hlabel by done.
  destruct (decide (P' = P)) as [->|HPP].
  - rewrite Hps' in Hc.
    assert (c ∈ l1 ++ l2) as Hc12.
    { rewrite elem_of_app, elem_of_cons in Hc. rewrite elem_of_app.
      destruct Hc as [?|[->|?]]; [tauto|done|tauto]. }
    assert (c ∈ PrereqsOf (heap p) P) as Hcold.
    { rewrite Hps. rewrite elem_of_app in Hc12.
      rewrite elem_of_app, elem_of_cons. tauto. }
    pose proof (wellFormed_children _ _ _ Hwf Hcold) as Hparent.
    rewrite (Hright P c label Hcold Hlabel).
    unfold andOrText.
    replace (ParentList h' c) with (Some P)
      by (subst h'; by rewrite ParentList_setPrereqs, ParentList_insert_ne).
    rewrite Hparent, Hps', Hps.
    replace (AllOf h' P) with (AllOf (heap p) P)
      by (subst h'; by rewrite AllOf_setPrereqs, AllOf_insert_ne).
    rewrite !length_app. cbn [length].
    replace (bool_decide (head (l1 ++ cr :: l2) = Some c))
      with (bool_decide (head (l1 ++ n :: l2) = Some c)); [done|].
    destruct l1 as [|x l1]; [|done]. simpl.
    rewrite !bool_decide_eq_false_2; [done| |].
    + intros [= ?]. done.
    + intros [= ->]. simpl in *. by apply NoDup_cons in Hnd as [Hnl2 _].
  - subst h'.
    destruct (other_children_alloc (heap p) cr obj P _ P' c Hwf
                (fresh_unallocated p) eq_refl HPP Hc) as (Hc' & _ & ->).
    by apply (Hright P').
Qed.

(** X7: After the popup of a list has stored its choice and refreshed, the
    labelled child at position [i] of that list shows no connective
    when [i = 0] or the list has fewer than two children, and otherwise
    "and" or "or" as chosen; the tree keeps its shape. *)
Theorem allPopup_relabels_children
    (p : prereqPanel) (L c : nat) (b : bool) (i : nat) (label : Label) :
  wellFormed (heap p) →
  PrereqsOf (heap p) L !! i = Some c →
  andOrMap p !! c = Some label →
  PrereqsOf (heap (allPopupSelectionChanged L b p)) L = PrereqsOf (heap p) L
  ∧ AllOf (heap (allPopupSelectionChanged L b p)) L = b
  ∧ andOrMap (allPopupSelectionChanged L b p) !! c
    = Some (mkLabel (if bool_decide (i = 0%nat
                                     ∨ (length (PrereqsOf (heap p) L) < 2)%nat)
                     then noAndOr else if b then "and" else "or")).
Proof.
  intros Hwf Hi Hlabel. unfold allPopupSelectionChanged.
  rewrite adjustAndOrForList_heap, adjustAndOrForList_lookup.
  cbn [heap andOrMap withHeap]. rewrite PrereqsOf_setAll.
  assert (is_Some (heap p !! L)) as HL.
  { apply PrereqsOf_allocated. intros Hnil. by rewrite Hnil in Hi. }
  assert (c ∈ PrereqsOf (heap p) L) as Hc by (by eapply list_elem_of_lookup_2).
  pose proof (wellFormed_children _ _ _ Hwf Hc) as Hparent.
  pose proof (wellFormed_NoDup _ L Hwf) as Hnd.
  split; [done|]. split; [by apply AllOf_setAll_eq|].
  rewrite decide_True by done. unfold relabel. rewrite Hlabel. simpl.
  f_equal. f_equal. case_bool_decide as Hcase.
  - destruct Hcase as [->|Hlen].
    + apply (andOrText_first _ L); [by rewrite ParentList_setAll|].
      by rewrite PrereqsOf_setAll, head_lookup.
    + apply (andOrText_few _ L); [by rewrite ParentList_setAll|].
      by rewrite PrereqsOf_setAll.
  - rewrite (andOrText_later _ L).
    + by rewrite AllOf_setAll_eq.
    + by rewrite ParentList_setAll.
    + rewrite PrereqsOf_setAll. lia.
    + rewrite PrereqsOf_setAll, head_lookup. intros H0.
      assert (i = 0%nat) by (eapply NoDup_lookup; eauto). lia.
Qed.

(** X8: The popup callback keeps the tree well-formed and the labels of all
    children right. *)
Theorem allPopup_keeps_invariants (p : prereqPanel) (L : nat) (b : bool) :
  wellFormed (heap p) → labelsRight p →
  wellFormed (heap (allPopupSelectionChanged L b p))
  ∧ labelsRight (allPopupSelectionChanged L b p).
Proof.
  intros Hwf Hright. unfold allPopupSelectionChanged. split.
  - rewrite adjustAndOrForList_heap. by apply wellFormed_setAll.
  - apply refresh_labelsRight. intros P c label HPL Hc Hlabel.
    cbn [heap andOrMap withHeap] in *.
    destruct (other_children_setAll (heap p) L b P c Hwf HPL Hc) as (Hc' & ->).
    by apply (Hright P).
Qed.

(** ** Building the panels *)
Section Build.
Implicit Types (p q r : prereqPanel) (c k : nat) (cs : list nat).

Lemma onlyAddsLabels_refl p : onlyAddsLabels p p.
Proof. by repeat split. Qed.

Lemma onlyAddsLabels_trans p q r :
  onlyAddsLabels p q → onlyAddsLabels q r → onlyAddsLabels p r.
Proof.
  intros (Hh & Hl & Hm & Hr & Hd) (Hh' & Hl' & Hm' & Hr' & Hd').
  repeat split; [congruence..|auto|auto].
Qed.

Lemma addAndOr_onlyAddsLabels c p : onlyAddsLabels p (addAndOr c p).
Proof.
  repeat split.
  - intros Hright k label. cbn [andOrMap heap addAndOr withAndOrMap].
    rewrite lookup_insert. case_decide as Hk.
    + subst. by intros [= <-].
    + apply Hright.
  - intros k Hk. cbn [andOrMap addAndOr withAndOrMap].
    rewrite lookup_insert. by case_decide.
Qed.

Lemma Warn_onlyAddsLabels p w : onlyAddsLabels p (Warn p w).
Proof. by repeat split. Qed.

Lemma foldl_onlyAddsLabels (f : prereqPanel → nat → prereqPanel) cs p :
  (∀ q c, onlyAddsLabels q (f q c)) → onlyAddsLabels p (foldl f p cs).
Proof.
  intros Hstep. revert p. induction cs as [|c cs IH]; intros p; simpl.
  - apply onlyAddsLabels_refl.
  - eapply onlyAddsLabels_trans; [apply Hstep|apply IH].
Qed.

Lemma addToList_onlyAddsLabels fuel c p : onlyAddsLabels p (addToList fuel c p).
Proof.
  revert c p. induction fuel as [|fuel IH]; intros c p; simpl.
  - destruct (heap p !! c) as [o|]; simpl; [|apply onlyAddsLabels_refl].
    destruct (prereqType o);
      solve [apply addAndOr_onlyAddsLabels | apply Warn_onlyAddsLabels].
  - destruct (heap p !! c) as [o|]; simpl; [|apply onlyAddsLabels_refl].
    destruct (prereqType o);
      try solve [apply addAndOr_onlyAddsLabels | apply Warn_onlyAddsLabels].
    eapply onlyAddsLabels_trans; [apply addAndOr_onlyAddsLabels|].
    apply foldl_onlyAddsLabels. intros q c'. apply IH.
Qed.

(** The panel of a node of a known type registers a label for it. *)
Lemma addToList_labels_node fuel c p t :
  prereqType <$> heap p !! c = Some t → knownPrereqType t = true →
  is_Some (andOrMap (addToList fuel c p) !! c).
Proof.
  intros Ht Hknown.
  assert (is_Some (andOrMap (addAndOr c p) !! c)) as Hadd
    by (cbn; rewrite lookup_insert_eq; by eexists).
  destruct fuel; simpl; rewrite Ht; destruct t; try done.
  by apply foldl_onlyAddsLabels;
    [intros q c'; apply addToList_onlyAddsLabels|].
Qed.

Lemma foldl_addToList_labels fuel cs p c t :
  c ∈ cs → prereqType <$> heap p !! c = Some t → knownPrereqType t = true →
  is_Some (andOrMap (foldl (λ q c', addToList fuel c' q) p cs) !! c).
Proof.
  revert p. induction cs as [|c0 cs IH]; intros p Hc Ht Hknown.
  - by apply not_elem_of_nil in Hc.
  - simpl. apply elem_of_cons in Hc as [->|Hc].
    + apply foldl_onlyAddsLabels; [intros q c'; apply addToList_onlyAddsLabels|].
      by apply (addToList_labels_node fuel c0 p t).
    + apply IH; [done| |done].
      destruct (addToList_onlyAddsLabels fuel c0 p) as (-> & _). done.
Qed.
End Build.

(** X9: [newPrereqPanel] leaves the tree alone and reports no modification;
    every label it creates shows the connective of its node; the root,
    which has no parent list, is labelled with no connective, and every
    child of the root whose type is one of the eight is labelled. *)
Theorem newPrereqPanel_labels
    (h : gmap nat PrereqObj) (root : nat) (last : PrereqType) :
  ParentList h root = None →
  heap (newPrereqPanel h root last) = h
  ∧ lastPrereqTypeUsed (newPrereqPanel h root last) = last
  ∧ modified (newPrereqPanel h root last) = 0%nat
  ∧ allLabelsRight (newPrereqPanel h root last)
  ∧ andOrMap (newPrereqPanel h root last) !! root = Some (mkLabel noAndOr)
  ∧ (∀ c t, c ∈ PrereqsOf h root → prereqType <$> h !! c = Some t →
            knownPrereqType t = true →
            andOrMap (newPrereqPanel h root last) !! c
            = Some (mkLabel (andOrText h c))).
Proof.
  intros Hroot. unfold newPrereqPanel, createPrereqListPanel.
  set (p0 := mkPanel h root ∅ last 0 []).
  set (p := foldl _ (addAndOr root p0) _).
  assert (onlyAddsLabels p0 p) as (Hh & Hl & Hm & Hr & Hd).
  { eapply onlyAddsLabels_trans; [apply addAndOr_onlyAddsLabels|].
    apply foldl_onlyAddsLabels. intros q c. apply addToList_onlyAddsLabels. }
  assert (allLabelsRight p) as Hright.
  { apply Hr. intros c label. cbn. by rewrite lookup_empty. }
  assert (∀ c, is_Some (andOrMap p !! c) →
               andOrMap p !! c = Some (mkLabel (andOrText h c))) as Hexact.
  { intros c [[text] Hc]. rewrite Hc. f_equal.
    apply Hright in Hc. simpl in Hc. rewrite Hh in Hc. by rewrite Hc. }
  split; [done|]. split; [done|]. split; [done|]. split; [done|]. split.
  - rewrite Hexact.
    + unfold andOrText. by rewrite Hroot.
    + destruct (addAndOr_onlyAddsLabels root p0) as (_ & _ & _ & _ & _).
      apply (foldl_onlyAddsLabels _ _ (addAndOr root p0));
        [intros q c; apply addToList_onlyAddsLabels|].
      cbn. rewrite lookup_insert_eq. by eexists.
  - intros c t Hc Ht Hknown. apply Hexact.
    by apply (foldl_addToList_labels _ _ _ c t).
Qed.

(** * Further properties of the body settings dockable *)

Lemma addToList_list (fuel : nat) (c : nat) (p : prereqPanel) :
  prereqType <$> heap p !! c = Some ListPrereqType →
  addToList (S fuel) c p = createPrereqListPanel fuel c p.
Proof. intros Hc. simpl. by rewrite Hc. Qed.

(** X13: Whatever [dataDragOver] leaves behind, [drawOver] can draw without
    a panic when the drag target still has the children the pointer was
    tested against: nothing when the drag is not accepted, otherwise a
    line at the top of the child at the insertion index, or at the
    bottom of the last child when the index is the number of children. *)
Theorem drawOver_after_dataDragOver
    (parent : nat) (children : list ChildFrame) (data : option DragValue)
    (d : bodySettingsDockable) :
  drawOver (length children) (dataDragOver parent children data d)
  = Some (if inDragOver (dataDragOver parent children data d)
          then Some (if bool_decide
                          (dragInsert (dataDragOver parent children data d)
                           < Z.of_nat (length children))
                     then TopOfChild
                            (Z.to_nat (dragInsert (dataDragOver parent children data d)))
                     else BottomOfChild (length children - 1))
          else None).
Proof.
  unfold dataDragOver. destruct (ownPanel _ data) as [dd|]; [|done].
  destruct (dragInsertFrom 0 children) as [j|] eqn:Hj; [|done].
  pose proof (dragInsertFrom_range _ _ _ Hj) as Hrange.
  unfold drawOver. cbn [inDragOver dragInsert dragTarget withDrag].
  rewrite bool_decide_eq_true_2 by lia. cbn [andb mbind option_bind].
  case_bool_decide as Hlt.
  - by rewrite bool_decide_eq_true_2 by lia.
  - rewrite bool_decide_eq_true_2; [done|].
    destruct children; [|simpl; lia]. done.
Qed.

(** X14: A drop that completes never loses or duplicates a location and
    never moves one to another table: the owning tables are as before,
    every table's list is a permutation of what it was, one undo edit
    at most is posted, and the drag state is reset. *)
Theorem dataDragDrop_keeps_locations
    (data : option DragValue) (d d' : bodySettingsDockable) :
  dataDragDrop data d = Some d' →
  OwningTable d' = OwningTable d
  ∧ (∀ t, default [] (Locations d' !! t) ≡ₚ default [] (Locations d !! t))
  ∧ inDragOver d' = false ∧ dragInsert d' = -1 ∧ dragTarget d' = None
  ∧ (undoEdits d' = undoEdits d ∨ undoEdits d' = S (undoEdits d)).
Proof.
  unfold dataDragDrop.
  destruct (inDragOver d && bool_decide (dragInsert d ≠ -1));
    [|intros [= <-]; by repeat split; auto].
  destruct (ownPanel d data) as [dd|]; [|intros [= <-]; by repeat split; auto].
  destruct (OwningTable d !! loc dd) as [table|]; [|done].
  cbn [mbind option_bind].
  set (ls := default [] (Locations d !! table)).
  destruct (decide (loc dd ∈ ls)) as [Hin|Hnin].
  - apply list_elem_of_split_l in Hin as (l1 & l2 & Hls & Hfirst).
    rewrite Hls, Index_first, Delete_one by done. cbn [mbind option_bind].
    unfold slices.Insert. case_bool_decide as Hrange; [|done].
    cbn [mbind option_bind]. intros [= <-].
    cbn [OwningTable Locations inDragOver dragInsert dragTarget undoEdits
         dataDragExit postUndo withLocations withDrag].
    split; [done|]. split; [|by repeat split; auto].
    intros t. destruct (decide (table = t)) as [<-|Hne].
    + rewrite lookup_insert_eq. fold ls. rewrite Hls. simpl.
      rewrite <- Permutation_middle, take_drop. by rewrite <- Permutation_middle.
    + by rewrite lookup_insert_ne.
  - unfold slices.Index, slices.IndexFunc. rewrite IndexFuncFrom_absent.
    + unfold slices.Delete.
      rewrite (bool_decide_eq_false_2 (0 ≤ -1 ∧ _)) by lia. done.
    + apply Forall_forall. intros y Hy. apply bool_decide_eq_false_2.
      by intros <-.
Qed.

(** X15: A drag that is not this dockable's own hit-location panel, or whose
    pointer is over none of the children, is not accepted, and a drop
    after it changes nothing but the drag state. *)
Theorem unaccepted_drag_changes_nothing
    (parent : nat) (children : list ChildFrame) (data : option DragValue)
    (d : bodySettingsDockable) :
  ownPanel d data = None ∨ Forall (λ child, ContainsPoint child = false) children →
  inDragOver (dataDragOver parent children data d) = false
  ∧ dataDragDrop data (dataDragOver parent children data d)
    = Some (dataDragExit d).
Proof.
  intros Hcase.
  assert (dataDragOver parent children data d = withDrag d None (-1) false) as ->.
  { unfold dataDragOver.
    replace (ownPanel (withDrag d None (-1) false) data) with (ownPanel d data)
      by done.
    destruct Hcase as [->|Hout]; [done|].
    destruct (ownPanel d data); [|done].
    assert (∀ i, dragInsertFrom i children = None) as ->; [|done].
    induction Hout as [|child rest Hchild _ IH]; intros i; simpl; [done|].
    by rewrite Hchild. }
  done.
Qed.

(** * Info pops *)
Section InfoPop.
Import infopop.
Implicit Types (tip : list TipChild) (lines rest : list string) (text : string).

(** The loop body of [AddHelpToInfoPop]. *)
Local Abbreviation addLine :=
  (λ tip str, if String.eqb str "" && Nat.eqb (length tip) 0
              then tip else tip ++ [HelpLabel str]).

Lemma addLines_nonempty tip lines :
  tip ≠ [] → foldl addLine tip lines = tip ++ (HelpLabel <$> lines).
Proof.
  revert tip. induction lines as [|str lines IH]; intros tip Htip; simpl.
  - by rewrite app_nil_r.
  - destruct tip as [|x tip]; [done|]. simpl. rewrite andb_false_r.
    rewrite (IH (x :: tip ++ [HelpLabel str])) by done.
    simpl. by rewrite <- app_assoc.
Qed.

Lemma addLines_skip_blank (k : nat) rest :
  foldl addLine [] (replicate k ""%string ++ rest) = foldl addLine [] rest.
Proof. induction k as [|k IH]; [done|]. simpl. apply IH. Qed.

Lemma addLines_empty rest :
  head rest ≠ Some ""%string → foldl addLine [] rest = HelpLabel <$> rest.
Proof.
  destruct rest as [|str rest]; [done|]. intros Hhead. simpl.
  destruct (String.eqb_spec str "") as [->|Hne]; [done|]. simpl.
  by rewrite addLines_nonempty.
Qed.

Lemma SplitNewline_nonempty text : SplitNewline text ≠ [].
Proof.
  destruct text as [|c text]; [done|]. simpl.
  destruct (Ascii.eqb c newline); [done|]. by destruct (SplitNewline text).
Qed.

(** Joining the pieces with newlines gives the text back. *)
Lemma SplitNewline_concat text :
  String.concat (String newline "") (SplitNewline text) = text.
Proof.
  induction text as [|c text IH]; [done|]. simpl.
  pose proof (SplitNewline_nonempty text) as Hne.
  destruct (Ascii.eqb_spec c newline) as [->|Hc].
  - destruct (SplitNewline text) as [|first more]; [done|].
    cbn [String.concat]. simpl. by rewrite <- IH.
  - destruct (SplitNewline text) as [|first more]; [done|].
    rewrite <- IH. by destruct more.
Qed.

(** A text of one line in front of another text joins its first line. *)
Lemma SplitNewline_app_single (a b : string) :
  SplitNewline a = [a] →
  SplitNewline (a ++ b)
  = match SplitNewline b with
    | first :: more => (a ++ first)%string :: more
    | [] => [a]
    end.
Proof.
  induction a as [|c a IH]; intros Ha.
  - change (String.append "" b) with b.
    pose proof (SplitNewline_nonempty b). by destruct (SplitNewline b).
  - change (String.append (String c a) b) with (String c (String.append a b)).
    simpl in *. pose proof (SplitNewline_nonempty a) as Hne.
    destruct (Ascii.eqb c newline).
    + destruct (SplitNewline a); [done|]. done.
    + destruct (SplitNewline a) as [|first more] eqn:Hsplit; [done|].
      injection Ha as -> ->. rewrite IH by done.
      pose proof (SplitNewline_nonempty b). by destruct (SplitNewline b).
Qed.
End InfoPop.

(** X17: On a target whose tooltip already has children, [AddHelpToInfoPop]
    keeps them and appends one label for every line of the text, empty
    lines included, so that the text can be read back from the labels;
    the tooltip is made immediate. *)
Theorem AddHelpToInfoPop_appends_all_lines
    (target : infopop.Target) (tip : list infopop.TipChild) (text : string) :
  infopop.Tooltip target = Some tip → tip ≠ [] →
  infopop.Tooltip (infopop.AddHelpToInfoPop target text)
  = Some (tip ++ (infopop.HelpLabel <$> infopop.SplitNewline text))
  ∧ infopop.TooltipImmediate (infopop.AddHelpToInfoPop target text) = true
  ∧ String.concat (String infopop.newline "") (infopop.SplitNewline text) = text.
Proof.
  intros Htip Hne. unfold infopop.AddHelpToInfoPop, infopop.prepareInfoPop.
  rewrite Htip. cbn [infopop.Tooltip infopop.TooltipImmediate].
  split; [by rewrite addLines_nonempty|].
  split; [done|apply SplitNewline_concat].
Qed.

(** X18: On a target without tooltip children (no tooltip, or an empty one),
    [AddHelpToInfoPop] drops the empty lines the text starts with and
    adds one label for each line from the first non-empty one on, later
    empty lines included; the tooltip is created and made immediate. *)
Theorem AddHelpToInfoPop_skips_leading_blank_lines
    (target : infopop.Target) (text : string) (k : nat) (rest : list string) :
  infopop.Tooltip target = None ∨ infopop.Tooltip target = Some [] →
  infopop.SplitNewline text = replicate k ""%string ++ rest →
  head rest ≠ Some ""%string →
  infopop.Tooltip (infopop.AddHelpToInfoPop target text)
  = Some (infopop.HelpLabel <$> rest)
  ∧ infopop.TooltipImmediate (infopop.AddHelpToInfoPop target text) = true.
Proof.
  intros Htip Hsplit Hhead.
  unfold infopop.AddHelpToInfoPop, infopop.prepareInfoPop.
  cbn [infopop.Tooltip infopop.TooltipImmediate]. split; [|done].
  rewrite Hsplit.
  destruct Htip as [->| ->]; by rewrite addLines_skip_blank, addLines_empty.
Qed.

(** X19: The default info pop shows exactly two labels, whatever the name of
    the modifier key (a name of one line): the sentence about the key,
    and the sentence about the mouse wheel.  The empty first line of
    the help text gets no label. *)
Theorem NewDefaultInfoPop_two_labels (modifier : string) :
  infopop.SplitNewline modifier = [modifier] →
  infopop.NewDefaultInfoPop modifier
  = infopop.mkTarget
      (Some [infopop.HelpLabel
               ("Holding down the " ++ modifier ++ " key while using")%string;
             infopop.HelpLabel "the mouse wheel will change the scale."])
      true.
Proof.
  intros Hmod.
  unfold infopop.NewDefaultInfoPop, infopop.AddScalingHelpToInfoPop,
    infopop.AddHelpToInfoPop, infopop.prepareInfoPop.
  cbn [infopop.Tooltip infopop.TooltipImmediate]. f_equal. f_equal.
  assert (infopop.SplitNewline
            ("Holding down the " ++ modifier ++ " key while using"
             ++ String infopop.newline "the mouse wheel will change the scale.")
          = [("Holding down the " ++ modifier ++ " key while using")%string;
             "the mouse wheel will change the scale."%string]) as Hlines.
  { rewrite (SplitNewline_app_single "Holding down the ") by done.
    rewrite (SplitNewline_app_single modifier) by done.
    rewrite (SplitNewline_app_single " key while using") by done.
    reflexivity. }
  change (infopop.SplitNewline (String infopop.newline ?x))
    with (""%string :: infopop.SplitNewline x).
  rewrite Hlines. reflexivity.
Qed.

(** * Table providers *)

(** X20: The spells table, in each of its three layouts: every column id gets
    a header, so the headers line up with the columns one to one; no
    column occurs twice; the hierarchy column (which is also the column
    that takes the excess width) is the first column; the page
    reference column is the last one. *)
Theorem spells_headers_line_up (forPage providerIsEntity : bool) :
  Forall2 (λ id header, spellsProvider.headerFor forPage id = Some header)
          (spellsProvider.ColumnIDs forPage providerIsEntity)
          (spellsProvider.Headers forPage providerIsEntity)
  ∧ length (spellsProvider.Headers forPage providerIsEntity)
    = length (spellsProvider.ColumnIDs forPage providerIsEntity)
  ∧ NoDup (spellsProvider.ColumnIDs forPage providerIsEntity)
  ∧ head (spellsProvider.ColumnIDs forPage providerIsEntity)
    = Some (spellsProvider.HierarchyColumnID forPage)
  ∧ spellsProvider.ExcessWidthColumnID forPage
    ∈ spellsProvider.ColumnIDs forPage providerIsEntity
  ∧ last (spellsProvider.ColumnIDs forPage providerIsEntity)
    = Some spellsProvider.SpellReferenceColumn.
Proof.
  destruct forPage, providerIsEntity;
    (split; [repeat constructor|]);
    (split; [reflexivity|]);
    (split; [apply (bool_decide_unpack _); vm_compute; exact I|]);
    (split; [reflexivity|]);
    (split; [apply (bool_decide_unpack _); vm_compute; exact I|reflexivity]).
Qed.

(** X21: The trait modifiers table, with and without the enabled column:
    every column id gets a header, no column occurs twice, the hierarchy
    column is among the columns, and the page reference column is the
    last one; the enabled column is there exactly in the editor. *)
Theorem traitModifiers_headers_line_up (forEditor : bool) :
  Forall2 (λ id header, traitModifiersProvider.headerFor id = Some header)
          (traitModifiersProvider.ColumnIDs forEditor)
          (traitModifiersProvider.Headers forEditor)
  ∧ NoDup (traitModifiersProvider.ColumnIDs forEditor)
  ∧ traitModifiersProvider.HierarchyColumnID
    ∈ traitModifiersProvider.ColumnIDs forEditor
  ∧ (traitModifiersProvider.TraitModifierEnabledColumn
     ∈ traitModifiersProvider.ColumnIDs forEditor ↔ forEditor = true)
  ∧ last (traitModifiersProvider.ColumnIDs forEditor)
    = Some traitModifiersProvider.TraitModifierReferenceColumn.
Proof.
  destruct forEditor;
    (split; [repeat constructor|]);
    (split; [apply (bool_decide_unpack _); vm_compute; exact I|]);
    (split; [apply (bool_decide_unpack _); vm_compute; exact I|]);
    (split; [|reflexivity]).
  - split; [done|]. intros _. apply (bool_decide_unpack _). vm_compute. exact I.
  - split; [|done]. intros Hin. exfalso. revert Hin.
    apply (bool_decide_unpack _). vm_compute. exact I.
Qed.

(** * Repeated events *)

Lemma adjustAndOrForList_twice (L : nat) (p : prereqPanel) :
  adjustAndOrForList L (adjustAndOrForList L p) = adjustAndOrForList L p.
Proof.
  set (q := adjustAndOrForList L p).
  transitivity (withAndOrMap q (andOrMap q)); [|apply withAndOrMap_id].
  etrans; [apply adjustAndOrForList_frame|]. f_equal.
  apply map_eq. intros k. rewrite (adjustAndOrForList_lookup L q).
  case_decide as Hk; [|done]. subst q.
  rewrite adjustAndOrForList_heap in Hk |- *.
  rewrite adjustAndOrForList_lookup, decide_True by done.
  unfold relabel. by destruct (andOrMap p !! k).
Qed.

Lemma adjustAndOrForList_MarkModified (L : nat) (p : prereqPanel) :
  adjustAndOrForList L (MarkModified p) = MarkModified (adjustAndOrForList L p).
Proof.
  etrans; [apply adjustAndOrForList_frame|].
  transitivity (MarkModified (withAndOrMap p (andOrMap (adjustAndOrForList L p))));
    [|by rewrite <- adjustAndOrForList_frame].
  assert (andOrMap (adjustAndOrForList L (MarkModified p))
          = andOrMap (adjustAndOrForList L p)) as ->; [|done].
  apply map_eq. intros k. by rewrite !adjustAndOrForList_lookup.
Qed.

(** X11: A second click on the delete button of a node changes nothing but
    the modification count: in a well-formed tree the first click has
    taken the node out of its parent's children and dropped its label,
    so the second one finds nothing to remove and nothing to relabel. *)
Theorem deleteButtonClick_twice (p p1 : prereqPanel) (n P : nat) :
  wellFormed (heap p) →
  deleteButtonClick n P p = Some p1 →
  deleteButtonClick n P p1 = Some (MarkModified p1)
  ∧ (n ∉ PrereqsOf (heap p1) P)
  ∧ andOrMap p1 !! n = None.
Proof.
  intros Hwf Hclick.
  assert (∃ q, p1 = MarkModified (adjustAndOrForList P q)
               ∧ (n ∉ PrereqsOf (heap q) P) ∧ andOrMap q !! n = None)
    as (q & -> & Hn & Hlabel).
  { destruct (decide (n ∈ PrereqsOf (heap p) P)) as [Hin|Hnin].
    - pose proof (wellFormed_NoDup (heap p) P Hwf) as Hnd.
      apply list_elem_of_split_l in Hin as (l1 & l2 & Hps & Hfirst).
      rewrite (deleteButtonClick_found p n P l1 l2) in Hclick by done.
      injection Hclick as <-. eexists. split; [done|].
      cbn [heap andOrMap withHeap withAndOrMap].
      split; [|apply lookup_delete_eq].
      rewrite PrereqsOf_setPrereqs_eq
        by (apply PrereqsOf_allocated; rewrite Hps; by destruct l1).
      rewrite Hps in Hnd. apply NoDup_app in Hnd as (_ & _ & Hnd).
      apply NoDup_cons in Hnd as [Hl2 _]. rewrite elem_of_app. tauto.
    - rewrite deleteButtonClick_absent in Hclick by done.
      injection Hclick as <-. eexists. split; [done|].
      cbn [heap andOrMap withAndOrMap]. split; [done|apply lookup_delete_eq]. }
  set (p1 := MarkModified (adjustAndOrForList P q)).
  assert (heap p1 = heap q) as Hheap
    by (subst p1; cbn [heap MarkModified]; apply adjustAndOrForList_heap).
  assert (andOrMap p1 !! n = None) as Hlabel1
    by (subst p1; cbn [andOrMap MarkModified];
        by apply adjustAndOrForList_lookup_None).
  split; [|by rewrite Hheap].
  rewrite deleteButtonClick_absent by (by rewrite Hheap).
  rewrite delete_id by done. rewrite withAndOrMap_id.
  subst p1. by rewrite adjustAndOrForList_MarkModified, adjustAndOrForList_twice.
Qed.

(** X16: A completed drop ends the drag: a further drop without a new
    drag-over leaves the dockable exactly as it is, whatever the
    payload. *)
Theorem dataDragDrop_not_replayed
    (data data' : option DragValue) (d d' : bodySettingsDockable) :
  dataDragDrop data d = Some d' → dataDragDrop data' d' = Some d'.
Proof.
  intros Hdrop.
  assert (inDragOver d' = false ∧ dragInsert d' = -1 ∧ dragTarget d' = None)
    as (Hover & Hinsert & Htarget).
  { unfold dataDragDrop in Hdrop.
    destruct (inDragOver d && bool_decide (dragInsert d ≠ -1));
      [|by injection Hdrop as <-].
    destruct (ownPanel d data) as [dd|]; [|by injection Hdrop as <-].
    destruct (OwningTable d !! loc dd) as [table|]; [|done].
    cbn [mbind option_bind] in Hdrop.
    destruct (slices.Delete _ _ _) as [ls|]; [|done].
    cbn [mbind option_bind] in Hdrop.
    destruct (slices.Insert _ _ _) as [ls'|]; [|done].
    by injection Hdrop as <-. }
  unfold dataDragDrop. rewrite Hover. cbn [andb]. f_equal.
  destruct d'. simpl in *. by subst.
Qed.

(** * The further theorems at sample states *)

Lemma samplePanel_allLabelsRight : allLabelsRight samplePanel.
Proof.
  intros c label. unfold samplePanel. cbn [andOrMap heap].
  repeat (rewrite lookup_insert; case_decide; subst;
          [by intros [= <-]|]).
  by rewrite lookup_empty.
Qed.

Lemma add_then_delete_restores_witness :
  ∃ created p1 click p2,
    addPrereqButtonClick 0 samplePanel = Some p1
    ∧ head (PrereqsOf (heap p1) 0) = Some created
    ∧ deleteButton (createButtonsPanel (heap p1) created) = Some click
    ∧ click p1 = Some p2
    ∧ PrereqsOf (heap p2) 0 = PrereqsOf (heap samplePanel) 0.
Proof.
  apply (add_then_delete_restores samplePanel 0).
  - exists (mkPrereq ListPrereqType None true [1%nat; 2%nat]). reflexivity.
  - reflexivity.
Defined.

Lemma addPrereqButtonClick_keeps_invariants_witness :
  ∃ p', addPrereqButtonClick 0 samplePanel = Some p'
        ∧ wellFormed (heap p') ∧ labelsRight p'.
Proof.
  apply (addPrereqButtonClick_keeps_invariants samplePanel 0).
  - exact sampleHeap_wellFormed.
  - exact (allLabelsRight_labelsRight _ samplePanel_allLabelsRight).
  - exists (mkPrereq ListPrereqType None true [1%nat; 2%nat]). reflexivity.
Defined.

Lemma addPrereqListButtonClick_inserts_list_witness :
  ∃ newList p',
    addPrereqListButtonClick 0 samplePanel = Some p'
    ∧ heap samplePanel !! newList = None
    ∧ prereqType <$> heap p' !! newList = Some ListPrereqType
    ∧ ParentList (heap p') newList = Some 0%nat
    ∧ PrereqsOf (heap p') newList = []
    ∧ PrereqsOf (heap p') 0 = newList :: PrereqsOf (heap samplePanel) 0
    ∧ andOrMap p' !! newList = Some (mkLabel noAndOr)
    ∧ modified p' = S (modified samplePanel)
    ∧ lastPrereqTypeUsed p' = lastPrereqTypeUsed samplePanel
    ∧ wellFormed (heap p') ∧ labelsRight p'.
Proof.
  apply (addPrereqListButtonClick_inserts_list samplePanel 0).
  - exact sampleHeap_wellFormed.
  - exact (allLabelsRight_labelsRight _ samplePanel_allLabelsRight).
  - exists (mkPrereq ListPrereqType None true [1%nat; 2%nat]). reflexivity.
Defined.

Lemma deleteButtonClick_keeps_invariants_witness :
  ∃ p', deleteButtonClick 1 0 samplePanel = Some p'
        ∧ wellFormed (heap p') ∧ labelsRight p'.
Proof.
  apply (deleteButtonClick_keeps_invariants samplePanel 1 0).
  - exact sampleHeap_wellFormed.
  - exact (allLabelsRight_labelsRight _ samplePanel_allLabelsRight).
Defined.

Lemma typeSwitcher_keeps_invariants_witness :
  ∃ p', typeSwitcherSelectionChanged 1 (Some SpellPrereqType) samplePanel = Some p'
        ∧ wellFormed (heap p') ∧ labelsRight p'.
Proof.
  apply (typeSwitcher_keeps_invariants samplePanel 1 0 SpellPrereqType).
  - exact sampleHeap_wellFormed.
  - exact (allLabelsRight_labelsRight _ samplePanel_allLabelsRight).
  - reflexivity.
  - reflexivity.
  - apply (bool_decide_unpack _). vm_compute. exact I.
Defined.

Lemma allPopup_relabels_children_witness :
  PrereqsOf (heap (allPopupSelectionChanged 0 false samplePanel)) 0
  = PrereqsOf (heap samplePanel) 0
  ∧ AllOf (heap (allPopupSelectionChanged 0 false samplePanel)) 0 = false
  ∧ andOrMap (allPopupSelectionChanged 0 false samplePanel) !! 2%nat
    = Some (mkLabel "or").
Proof.
  apply (allPopup_relabels_children samplePanel 0 2 false 1 (mkLabel "and")).
  - exact sampleHeap_wellFormed.
  - reflexivity.
  - reflexivity.
Defined.

Lemma allPopup_keeps_invariants_witness :
  wellFormed (heap (allPopupSelectionChanged 0 false samplePanel))
  ∧ labelsRight (allPopupSelectionChanged 0 false samplePanel).
Proof.
  apply (allPopup_keeps_invariants samplePanel 0 false).
  - exact sampleHeap_wellFormed.
  - exact (allLabelsRight_labelsRight _ samplePanel_allLabelsRight).
Defined.

Lemma newPrereqPanel_labels_witness :
  heap (newPrereqPanel sampleHeap 0 TraitPrereqType) = sampleHeap
  ∧ lastPrereqTypeUsed (newPrereqPanel sampleHeap 0 TraitPrereqType)
    = TraitPrereqType
  ∧ modified (newPrereqPanel sampleHeap 0 TraitPrereqType) = 0%nat
  ∧ allLabelsRight (newPrereqPanel sampleHeap 0 TraitPrereqType)
  ∧ andOrMap (newPrereqPanel sampleHeap 0 TraitPrereqType) !! 0%nat
    = Some (mkLabel noAndOr)
  ∧ (∀ c t, c ∈ PrereqsOf sampleHeap 0 → prereqType <$> sampleHeap !! c = Some t →
            knownPrereqType t = true →
            andOrMap (newPrereqPanel sampleHeap 0 TraitPrereqType) !! c
            = Some (mkLabel (andOrText sampleHeap c))).
Proof.
  apply (newPrereqPanel_labels sampleHeap 0 TraitPrereqType). reflexivity.
Defined.

Lemma dataDragOver_range_witness :
  0 ≤ dragInsert (dataDragOver 20 [mkChildFrame false false; mkChildFrame true true]
                    sampleDrag sampleDockable)
    ≤ Z.of_nat (length [mkChildFrame false false; mkChildFrame true true])
  ∧ dragTarget (dataDragOver 20 [mkChildFrame false false; mkChildFrame true true]
                  sampleDrag sampleDockable) = Some 20%nat.
Proof.
  apply (dataDragOver_range 20 [mkChildFrame false false; mkChildFrame true true]
           sampleDrag sampleDockable).
  reflexivity.
Defined.

Lemma dataDragDrop_keeps_locations_witness :
  OwningTable (dataDragExit (postUndo
                 (withLocations sampleDockable 10 [2%nat; 1%nat; 3%nat])))
  = OwningTable sampleDockable
  ∧ (∀ t, default [] (Locations (dataDragExit (postUndo
                       (withLocations sampleDockable 10 [2%nat; 1%nat; 3%nat]))) !! t)
          ≡ₚ default [] (Locations sampleDockable !! t))
  ∧ inDragOver (dataDragExit (postUndo
                  (withLocations sampleDockable 10 [2%nat; 1%nat; 3%nat]))) = false
  ∧ dragInsert (dataDragExit (postUndo
                  (withLocations sampleDockable 10 [2%nat; 1%nat; 3%nat]))) = -1
  ∧ dragTarget (dataDragExit (postUndo
                  (withLocations sampleDockable 10 [2%nat; 1%nat; 3%nat]))) = None
  ∧ (undoEdits (dataDragExit (postUndo
                  (withLocations sampleDockable 10 [2%nat; 1%nat; 3%nat])))
     = undoEdits sampleDockable
     ∨ undoEdits (dataDragExit (postUndo
                  (withLocations sampleDockable 10 [2%nat; 1%nat; 3%nat])))
       = S (undoEdits sampleDockable)).
Proof.
  apply (dataDragDrop_keeps_locations sampleDrag sampleDockable).
  vm_compute. reflexivity.
Defined.

Lemma unaccepted_drag_changes_nothing_witness :
  inDragOver (dataDragOver 20 [mkChildFrame true true] (Some ForeignValue)
                sampleDockable) = false
  ∧ dataDragDrop (Some ForeignValue)
      (dataDragOver 20 [mkChildFrame true true] (Some ForeignValue) sampleDockable)
    = Some (dataDragExit sampleDockable).
Proof.
  apply (unaccepted_drag_changes_nothing 20 [mkChildFrame true true]
           (Some ForeignValue) sampleDockable).
  left. reflexivity.
Defined.

Lemma AddHelpToInfoPop_appends_all_lines_witness :
  infopop.Tooltip
    (infopop.AddHelpToInfoPop
       (infopop.mkTarget (Some [infopop.KeyLabel "Z"; infopop.DescLabel "Undo"]) true)
       (String infopop.newline "more"))
  = Some ([infopop.KeyLabel "Z"; infopop.DescLabel "Undo"]
          ++ (infopop.HelpLabel
                <$> infopop.SplitNewline (String infopop.newline "more")))
  ∧ infopop.TooltipImmediate
      (infopop.AddHelpToInfoPop
         (infopop.mkTarget (Some [infopop.KeyLabel "Z"; infopop.DescLabel "Undo"]) true)
         (String infopop.newline "more")) = true
  ∧ String.concat (String infopop.newline "")
      (infopop.SplitNewline (String infopop.newline "more"))
    = String infopop.newline "more".
Proof.
  apply (AddHelpToInfoPop_appends_all_lines
           (infopop.mkTarget (Some [infopop.KeyLabel "Z"; infopop.DescLabel "Undo"]) true)
           [infopop.KeyLabel "Z"; infopop.DescLabel "Undo"]).
  - reflexivity.
  - discriminate.
Defined.

Lemma AddHelpToInfoPop_skips_leading_blank_lines_witness :
  infopop.Tooltip
    (infopop.AddHelpToInfoPop (infopop.mkTarget None false)
       (String infopop.newline
          (String infopop.newline
             (String.append "first"
                (String infopop.newline (String infopop.newline "last"))))))
  = Some (infopop.HelpLabel <$> ["first"; ""; "last"]%string)
  ∧ infopop.TooltipImmediate
      (infopop.AddHelpToInfoPop (infopop.mkTarget None false)
         (String infopop.newline
            (String infopop.newline
               (String.append "first"
                  (String infopop.newline (String infopop.newline "last"))))))
    = true.
Proof.
  apply (AddHelpToInfoPop_skips_leading_blank_lines
           (infopop.mkTarget None false) _ 2 ["first"; ""; "last"]%string).
  - left. reflexivity.
  - reflexivity.
  - discriminate.
Defined.

Lemma NewDefaultInfoPop_two_labels_witness :
  infopop.NewDefaultInfoPop "Alt"
  = infopop.mkTarget
      (Some [infopop.HelpLabel "Holding down the Alt key while using";
             infopop.HelpLabel "the mouse wheel will change the scale."])
      true.
Proof.
  apply (NewDefaultInfoPop_two_labels "Alt"). reflexivity.
Defined.

Lemma deleteButtonClick_twice_witness :
  deleteButtonClick 1 0 (default samplePanel (deleteButtonClick 1 0 samplePanel))
  = Some (MarkModified (default samplePanel (deleteButtonClick 1 0 samplePanel)))
  ∧ (1%nat ∉ PrereqsOf (heap (default samplePanel
                                 (deleteButtonClick 1 0 samplePanel))) 0)
  ∧ andOrMap (default samplePanel (deleteButtonClick 1 0 samplePanel)) !! 1%nat = None.
Proof.
  apply (deleteButtonClick_twice samplePanel _ 1 0).
  - exact sampleHeap_wellFormed.
  - vm_compute. reflexivity.
Defined.

Lemma dataDragDrop_not_replayed_witness :
  dataDragDrop sampleDrag
    (dataDragExit (postUndo (withLocations sampleDockable 10 [2%nat; 1%nat; 3%nat])))
  = Some (dataDragExit (postUndo
            (withLocations sampleDockable 10 [2%nat; 1%nat; 3%nat]))).
Proof.
  apply (dataDragDrop_not_replayed sampleDrag sampleDrag sampleDockable).
  vm_compute. reflexivity.
Defined.
